(** * libwimaxll: callback contexts, byte order helpers and the message-pipe engine

    A shallow embedding of [include/wimaxll.h].  The inline functions of the
    header are translated as they are written; the functions the header only
    declares are modelled from the design document (the spec) and marked as
    such. *)

From Stdlib Require Import ZArith Lia List Bool String.
From Stdlib.Strings Require Import Byte.
From stdpp Require Import base option list gmap strings.

Local Open Scope Z_scope.

(** ** Pointers and caller-owned memory *)

(** A non-NULL address. *)
Definition addr := positive.

(** A C pointer: [None] is NULL. *)
Definition ptr := option addr.

Definition NULL : ptr := None.

(** [struct wimaxll_gnl_cb_context]: [wmx] is the handle back-reference,
    [result] an [ssize_t], [msg_done] a one-bit field. *)
Record wimaxll_gnl_cb_context := mk_cb_context {
  wmx : ptr;
  result : Z;
  msg_done : bool
}.

(** The contexts live in memory owned by the application; the same object can
    be reached through several pointers, so the store is shared. *)
Abbreviation heap := (gmap addr wimaxll_gnl_cb_context).

(** Memory accesses a function performs, in program order. *)
Inductive access :=
| Load (a : addr)
| Store (a : addr).

(** A computation over the heap: [None] is a fault (a dereference of NULL or
    of an address that holds no context); otherwise the value, the heap left
    behind and the accesses made. *)
Definition mem (A : Type) : Type := heap -> option (A * heap * list access).

Definition mret {A} (x : A) : mem A := fun h => Some (x, h, []).

Definition mbind {A B} (m : mem A) (f : A -> mem B) : mem B :=
  fun h =>
    match m h with
    | None => None
    | Some (x, h1, t1) =>
        match f x h1 with
        | None => None
        | Some (y, h2, t2) => Some (y, h2, t1 ++ t2)
        end
    end.

Notation "x <~ m ;; k" := (mbind m (fun x => k))
  (at level 100, m at next level, right associativity).
Notation "m ;;; k" := (mbind m (fun _ => k))
  (at level 100, right associativity).

(** [p->result] as an rvalue. *)
Definition load_result (p : ptr) : mem Z :=
  fun h =>
    match p with
    | None => None
    | Some a =>
        match h !! a with
        | None => None
        | Some c => Some (result c, h, [Load a])
        end
    end.

(** [p->result = v]. *)
Definition store_result (p : ptr) (v : Z) : mem unit :=
  fun h =>
    match p with
    | None => None
    | Some a =>
        match h !! a with
        | None => None
        | Some c =>
            Some (tt, <[a := mk_cb_context (wmx c) v (msg_done c)]> h, [Store a])
        end
    end.

(** [p->wmx = w]. *)
Definition store_wmx (p : ptr) (w : ptr) : mem unit :=
  fun h =>
    match p with
    | None => None
    | Some a =>
        match h !! a with
        | None => None
        | Some c =>
            Some (tt, <[a := mk_cb_context w (result c) (msg_done c)]> h, [Store a])
        end
    end.

(** ** Byte order *)

(** The two values of [__BYTE_ORDER] the header compiles for; any other value
    stops at [#error]. *)
Inductive byte_order := LITTLE_ENDIAN | BIG_ENDIAN.

(** Conversion to [unsigned short]. *)
Definition to_ushort (x : Z) : Z := x mod 2 ^ 16.

(** Conversion to the 32-bit [unsigned int] argument of [bswap_32]. *)
Definition to_uint32 (x : Z) : Z := x mod 2 ^ 32.

(** Modelled from the spec: [bswap_16] of <byteswap.h> is not part of the
    sources; the design document calls the helpers byte swaps, and this is the
    C library's expression for it,
    [((x >> 8) & 0xff) | ((x & 0xff) << 8)]. *)
Definition bswap_16 (x : Z) : Z :=
  Z.lor (Z.land (Z.shiftr x 8) 255) (Z.shiftl (Z.land x 255) 8).

(** Modelled from the spec: [bswap_32] of <byteswap.h>, likewise,
    [((x & 0xff000000) >> 24) | ((x & 0x00ff0000) >> 8) |
     ((x & 0x0000ff00) << 8) | ((x & 0x000000ff) << 24)]. *)
Definition bswap_32 (x : Z) : Z :=
  Z.lor
    (Z.lor (Z.shiftr (Z.land x 4278190080) 24) (Z.shiftr (Z.land x 16711680) 8))
    (Z.lor (Z.shiftl (Z.land x 65280) 8) (Z.shiftl (Z.land x 255) 24)).

(** [unsigned short wimaxll_swap_16(unsigned short x)]. *)
Definition wimaxll_swap_16 (x : Z) : Z := to_ushort (bswap_16 x).

(** [unsigned long wimaxll_swap_32(unsigned long x)]: the argument is
    converted to the 32-bit parameter of [bswap_32]; the 32-bit result widens
    to [unsigned long] unchanged. *)
Definition wimaxll_swap_32 (x : Z) : Z := bswap_32 (to_uint32 x).

Section ByteOrder.

Variable BYTE_ORDER : byte_order.

Definition wimaxll_cpu_to_le16 (x : Z) : Z :=
  match BYTE_ORDER with
  | LITTLE_ENDIAN => x
  | BIG_ENDIAN => wimaxll_swap_16 x
  end.

Definition wimaxll_le16_to_cpu (le16 : Z) : Z :=
  match BYTE_ORDER with
  | LITTLE_ENDIAN => le16
  | BIG_ENDIAN => wimaxll_swap_16 le16
  end.

Definition wimaxll_cpu_to_le32 (x : Z) : Z :=
  match BYTE_ORDER with
  | LITTLE_ENDIAN => x
  | BIG_ENDIAN => wimaxll_swap_32 x
  end.

Definition wimaxll_le32_to_cpu (le32 : Z) : Z :=
  match BYTE_ORDER with
  | LITTLE_ENDIAN => le32
  | BIG_ENDIAN => wimaxll_swap_32 le32
  end.

End ByteOrder.

(** ** Callback contexts *)

Section CallbackContext.

(** [EINPROGRESS] of <sys/errno.h>; its value depends on the architecture
    and the header never looks at it. *)
Variable EINPROGRESS : Z.

(** [WIMAXLL_GNL_CB_CONTEXT_INIT(_wmx)]: a designated initializer; the
    member it does not name, [msg_done], is zero. *)
Definition WIMAXLL_GNL_CB_CONTEXT_INIT (_wmx : ptr) : wimaxll_gnl_cb_context :=
  {| wmx := _wmx; result := - EINPROGRESS; msg_done := false |}.

Definition wimaxll_gnl_cb_context_init (ctx : ptr) (wmx : ptr) : mem unit :=
  store_wmx ctx wmx ;;;
  store_result ctx (- EINPROGRESS).

(** [val] is an [int] and the slot an [ssize_t], at least as wide: the
    assignment keeps the value. *)
Definition wimaxll_cb_context_set_result (ctx : ptr) (val : Z) : mem unit :=
  match ctx with
  | None => mret tt
  | Some a =>
      r <~ load_result (Some a) ;;
      if r =? - EINPROGRESS then store_result (Some a) val else mret tt
  end.

(** The store one call leaves when [ctx] points to [c] at address [a]: the
    two branches of the test in [wimaxll_cb_context_set_result]. *)
Definition after_set_result (h : heap) (a : addr) (c : wimaxll_gnl_cb_context)
    (v : Z) : heap :=
  if result c =? - EINPROGRESS
  then <[a := mk_cb_context (wmx c) v (msg_done c)]> h else h.

(** A run of calls on the same context, one per value, in order. *)
Fixpoint set_results (ctx : ptr) (vals : list Z) : mem unit :=
  match vals with
  | [] => mret tt
  | v :: vs => wimaxll_cb_context_set_result ctx v ;;; set_results ctx vs
  end.

End CallbackContext.

(** The value a run of calls leaves in a slot that starts pending, read off
    the test in [wimaxll_cb_context_set_result]: the first value of the run
    that is not the sentinel, the sentinel when there is none. *)
Fixpoint first_final (sentinel : Z) (vals : list Z) : Z :=
  match vals with
  | [] => sentinel
  | v :: vs => if v =? sentinel then first_final sentinel vs else v
  end.

(** The bytes of [x] from the least significant on, [w] of them. *)
Fixpoint le_bytes (w : nat) (x : Z) : list Z :=
  match w with
  | O => []
  | S w' => x mod 256 :: le_bytes w' (x / 256)
  end.

(** The bytes of a [w]-byte unsigned object holding [x], lowest address
    first, on a host of the given byte order; this is what [__BYTE_ORDER] of
    <endian.h> stands for: least significant byte first on a little-endian
    host, most significant first on a big-endian one. *)
Definition object_bytes (bo : byte_order) (w : nat) (x : Z) : list Z :=
  match bo with
  | LITTLE_ENDIAN => le_bytes w x
  | BIG_ENDIAN => rev (le_bytes w x)
  end.

(** ** The message-pipe engine

    The header declares the pipe, read, write and wait functions; their
    bodies are in the library's C files, which are not among the sources.
    This part follows the design document. *)

(** One datagram as the kernel hands it over. *)
Definition frame := list byte.

(** [enum wimax_st] of <linux/wimax.h>, by its integer value. *)
Definition wimax_st := Z.

(** Modelled from the spec: what a decoded frame carries, missing with the
    codec; a state-change pair (old state, new state) or a driver message
    payload with the protocol envelope stripped. *)
Inductive notification :=
| StateChange (old_state new_state : wimax_st)
| MsgToUser (data : list byte).

(** Modelled from the spec: the error taxonomy of the design document; the
    header only names [-ENODEV] and [-EBUSY]. *)
Inductive error :=
| DeviceGone
| NoSuchPipe
| BadPipeId
| MalformedFrame
| NotWritable
| Timeout
| WouldBlock.

(** Modelled from the spec: an operation gives a result or an error of the
    taxonomy. *)
Inductive outcome (A : Type) :=
| Ok (a : A)
| Err (e : error).

Arguments Ok {A} a.
Arguments Err {A} e.

(** What a caller reads off a C call: nothing for a function declared
    [void], as [wimaxll_pipe_close] and [wimaxll_mc_rx_close] are. *)
Inductive returned :=
| Nothing
| Status (r : outcome Z).

(** Modelled from the spec: the callback reference a pipe holds; the bodies
    are missing.  [UserCb f] is the application's function number [f],
    [WaitCb] the one-shot callback of the synchronous wait. *)
Inductive cb_ref :=
| UserCb (f : nat)
| WaitCb.

(** Modelled from the spec: the context reference a pipe holds, passed to the
    callback and never dereferenced by the engine: NULL, a context in the
    application's memory, or the context on the stack of the synchronous
    wait. *)
Inductive ctx_ref :=
| CtxNull
| CtxApp (a : addr)
| CtxWait.

(** Modelled from the spec: one entry of the pipe registry (section 3,
    Pipe): group binding, file descriptor, installed callback and context. *)
Record pipe := mk_pipe {
  pgroup : nat;
  pfd : Z;
  pcb : option cb_ref;
  pctx : ctx_ref
}.

(** Modelled from the spec: the handle, opaque in the header (section 3,
    Handle): device name, validity flag, registry from pipe id to pipe (id 0
    is the control pipe), and the address callbacks get as [wmx]. *)
Record handle := mk_handle {
  hname : string;
  hvalid : bool;
  hpipes : gmap nat pipe;
  hself : addr
}.

(** Requests the library makes to the kernel, in order. *)
Inductive syscall :=
| SysResolve (name : string)
| SysSocket (fd : Z) (group : nat)
| SysClose (fd : Z)
| SysRecv (fd : Z)
| SysSend (fd : Z) (data : frame)
| SysPoll (fd : Z).

(** What happens in the kernel while a caller is blocked. *)
Inductive kevent :=
| KArrive (fd : Z) (frames : list frame)
| KRemove
| KDeadline.

(** Modelled from the spec: the kernel side the library talks to, absent
    from the sources: advertised group names, the receive queue of every
    socket in delivery order, whether the device is still there, the next
    free descriptor, what will happen during blocking waits, and the log of
    requests received. *)
Record kernel := mk_kernel {
  kgroups : gmap string nat;
  ksocks : gmap Z (list frame);
  kpresent : bool;
  knext_fd : Z;
  kfuture : list kevent;
  klog : list syscall
}.

Definition with_valid (h : handle) (v : bool) : handle :=
  mk_handle (hname h) v (hpipes h) (hself h).

Definition with_pipes (h : handle) (ps : gmap nat pipe) : handle :=
  mk_handle (hname h) (hvalid h) ps (hself h).

Definition k_log (k : kernel) (l : list syscall) : kernel :=
  mk_kernel (kgroups k) (ksocks k) (kpresent k) (knext_fd k) (kfuture k)
    (klog k ++ l).

Definition k_with_socks (k : kernel) (s : gmap Z (list frame)) : kernel :=
  mk_kernel (kgroups k) s (kpresent k) (knext_fd k) (kfuture k) (klog k).

Definition k_queue (k : kernel) (fd : Z) : list frame :=
  default [] (ksocks k !! fd).

Definition frame_size (f : frame) : Z := Z.of_nat (length f).

(** Modelled from the spec: [fd(pipe_id) -> fd | Error(BadPipeId)], the
    missing body of [wimaxll_pipe_fd]. *)
Definition wimaxll_pipe_fd (h : handle) (pipe_id : nat) : outcome Z :=
  match hpipes h !! pipe_id with
  | Some p => Ok (pfd p)
  | None => Err BadPipeId
  end.

(** Modelled from the spec: [set_callback(handle, pipe_id, callback,
    context)], the missing body of [wimaxll_pipe_set_cb_msg_to_user]; one
    pair per pipe, the last writer wins. *)
Definition wimaxll_pipe_set_cb_msg_to_user (h : handle) (pipe_id : nat)
    (cb : option cb_ref) (ctx : ctx_ref) : handle :=
  match hpipes h !! pipe_id with
  | Some p =>
      with_pipes h (<[pipe_id := mk_pipe (pgroup p) (pfd p) cb ctx]> (hpipes h))
  | None => h
  end.

(** Modelled from the spec: [get_callback(handle, pipe_id) -> (callback,
    context)], the missing body of [wimaxll_pipe_get_cb_msg_to_user]. *)
Definition wimaxll_pipe_get_cb_msg_to_user (h : handle) (pipe_id : nat)
    : option cb_ref * ctx_ref :=
  match hpipes h !! pipe_id with
  | Some p => (pcb p, pctx p)
  | None => (None, CtxNull)
  end.

(** Modelled from the spec: [close_pipe(pipe_id)], the missing body of
    [wimaxll_pipe_close], declared [void] in the header: releases the socket
    and clears the registry slot; the control pipe is not closed this way; an
    id that is not open changes nothing. *)
Definition wimaxll_pipe_close (h : handle) (k : kernel) (pipe_id : nat)
    : returned * handle * kernel :=
  match pipe_id with
  | O => (Nothing, h, k)
  | S _ =>
      match hpipes h !! pipe_id with
      | None => (Nothing, h, k)
      | Some p =>
          (Nothing,
           with_pipes h (delete pipe_id (hpipes h)),
           k_log (k_with_socks k (delete (pfd p) (ksocks k))) [SysClose (pfd p)])
      end
  end.

(** Modelled from the spec: [open_pipe(name) -> pipe_id | Error], the
    missing body of [wimaxll_pipe_open]: an invalid handle fails before any
    resolution, an unknown name registers nothing.  The design document does
    not say which id a new pipe gets; here it is one not in use. *)
Definition wimaxll_pipe_open (h : handle) (k : kernel) (name : string)
    : outcome Z * handle * kernel :=
  if negb (hvalid h) then (Err DeviceGone, h, k)
  else
    match kgroups k !! name with
    | None => (Err NoSuchPipe, h, k_log k [SysResolve name])
    | Some g =>
        let id := fresh (dom (hpipes h) ∪ {[ O ]}) in
        let fd := knext_fd k in
        (Ok (Z.of_nat id),
         with_pipes h (<[id := mk_pipe g fd None CtxNull]> (hpipes h)),
         mk_kernel (kgroups k) (<[fd := []]> (ksocks k)) (kpresent k) (fd + 1)
           (kfuture k) (klog k ++ [SysResolve name; SysSocket fd g]))
    end.


(** Modelled from the spec: the stack frame of a synchronous wait: its
    callback context and the outcome the one-shot callback captured. *)
Record wait_frame (Out : Type) := mk_wait_frame {
  wctx : wimaxll_gnl_cb_context;
  wout : option Out
}.

Arguments mk_wait_frame {Out} wctx wout.
Arguments wctx {Out} w.
Arguments wout {Out} w.

Section Engine.

(** Error numbers of <sys/errno.h>, positive on every system. *)
Variable EINPROGRESS EBUSY ENODEV : Z.

(** Modelled from the spec: the frame codec is not among the sources and the
    design document gives it no byte layout; the engine takes [decode]
    (section 4.1, [decode(raw_bytes) -> Notification | MalformedFrame]) and
    the wrapping of a payload for transmission as given. *)
Variable decode : frame -> outcome notification.
Variable encode : list byte -> frame.

Section Dispatch.

(** The caller-owned state callbacks act on, and what running the callback
    behind a reference does to it: the value returned and the state left. *)
Variable W : Type.
Variable invoke : cb_ref -> ptr -> ctx_ref -> notification -> W -> Z * W.

(** Modelled from the spec: the drain loop of the dispatch engine (section
    4.3), missing with the body of [wimaxll_pipe_read]: receive one frame at
    a time until none is queued; a frame that does not decode is dropped and
    the loop goes on; a decoded one goes to the installed callback, if any; a
    negative value from the callback ends the call and leaves the rest
    queued, any other value lets it go on.  Gives the frames left, the
    state, the bytes consumed, the notifications handed to the callback and
    the receive requests made. *)
Fixpoint drain (wmx : ptr) (cb : option cb_ref) (ctx : ctx_ref) (fd : Z)
    (q : list frame) (w : W)
    : list frame * W * Z * list notification * list syscall :=
  match q with
  | [] => ([], w, 0, [], [SysRecv fd])
  | f :: q' =>
      match decode f, cb with
      | Ok n, Some c =>
          let (r, w1) := invoke c wmx ctx n w in
          if r <? 0 then (q', w1, frame_size f, [n], [SysRecv fd])
          else
            let '(rest, w2, b, fired, sys) := drain wmx cb ctx fd q' w1 in
            (rest, w2, frame_size f + b, n :: fired, SysRecv fd :: sys)
      | _, _ =>
          let '(rest, w2, b, fired, sys) := drain wmx cb ctx fd q' w in
          (rest, w2, frame_size f + b, fired, SysRecv fd :: sys)
      end
  end.

(** Modelled from the spec: [read(pipe_id) -> bytes_consumed | Error]
    (section 4.3), the missing body of [wimaxll_pipe_read].  An invalid
    handle fails at once; when the kernel reports the device gone the handle
    is marked invalid; nothing pending is [WouldBlock]. *)
Definition dispatch (h : handle) (k : kernel) (w : W) (pipe_id : nat)
    : outcome Z * handle * kernel * W * list notification :=
  if negb (hvalid h) then (Err DeviceGone, h, k, w, [])
  else
    match hpipes h !! pipe_id with
    | None => (Err BadPipeId, h, k, w, [])
    | Some p =>
        if negb (kpresent k) then
          (Err DeviceGone, with_valid h false, k_log k [SysRecv (pfd p)], w, [])
        else
          match k_queue k (pfd p) with
          | [] => (Err WouldBlock, h, k_log k [SysRecv (pfd p)], w, [])
          | q =>
              let '(rest, w', b, fired, sys) :=
                drain (Some (hself h)) (pcb p) (pctx p) (pfd p) q w in
              (Ok b, h,
               k_log (k_with_socks k (<[pfd p := rest]> (ksocks k))) sys,
               w', fired)
          end
    end.

End Dispatch.

(** The application's state and the code of its callbacks, by number. *)
Variable world : Type.
Variable user_cb : nat -> ptr -> ctx_ref -> notification -> world -> Z * world.

(** Modelled from the spec: running the installed callback (section 4.3);
    the callbacks' bodies belong to the application.  Outside a synchronous
    wait only application callbacks are installed. *)
Definition invoke_user (c : cb_ref) (wmx : ptr) (ctx : ctx_ref)
    (n : notification) (w : world) : Z * world :=
  match c with
  | UserCb f => user_cb f wmx ctx n w
  | WaitCb => (0, w)
  end.

(** Modelled from the spec: [pipe_read(handle, pipe_id) -> bytes_consumed |
    error] (section 6), the missing body of [wimaxll_pipe_read]: the dispatch
    engine over the application's callbacks; the last component lists the
    notifications handed to the callback, in order. *)
Definition wimaxll_pipe_read (h : handle) (k : kernel) (w : world)
    (pipe_id : nat) : outcome Z * handle * kernel * world * list notification :=
  dispatch world invoke_user h k w pipe_id.

(** Modelled from the spec: [write(bytes) -> bytes_written | Error] (section
    4.5), the missing body of [wimaxll_msg_write] with the pipe made
    explicit: only the control pipe takes writes; the payload goes out
    wrapped by the codec; no acknowledgement is awaited. *)
Definition pipe_write (h : handle) (k : kernel) (pipe_id : nat)
    (data : list byte) : outcome Z * handle * kernel :=
  if negb (hvalid h) then (Err DeviceGone, h, k)
  else
    match hpipes h !! pipe_id with
    | None => (Err BadPipeId, h, k)
    | Some p =>
        match pipe_id with
        | S _ => (Err NotWritable, h, k)
        | O =>
            if negb (kpresent k) then
              (Err DeviceGone, with_valid h false,
               k_log k [SysSend (pfd p) (encode data)])
            else
              (Ok (Z.of_nat (length data)), h,
               k_log k [SysSend (pfd p) (encode data)])
        end
    end.

(** Modelled from the spec: [msg_write(handle, buffer, size) ->
    bytes_written | error] (section 6), the missing body of
    [wimaxll_msg_write]: a write on the control pipe. *)
Definition wimaxll_msg_write (h : handle) (k : kernel) (data : list byte)
    : outcome Z * handle * kernel :=
  pipe_write h k O data.

(** How a blocking wait on one descriptor ends. *)
Inductive wake :=
| Readable
| Expired
| Stuck.

Definition k_enqueue (socks : gmap Z (list frame)) (fd : Z) (fs : list frame)
    : gmap Z (list frame) :=
  match socks !! fd with
  | Some q => <[fd := q ++ fs]> socks
  | None => socks
  end.

Definition fd_ready (socks : gmap Z (list frame)) (present : bool) (fd : Z)
    : bool :=
  negb present ||
  match default [] (socks !! fd) with
  | [] => false
  | _ => true
  end.

(** Modelled from the spec: the single-descriptor blocking wait of the
    synchronous wait (section 4.4): it returns as soon as the descriptor is
    readable, or when the caller's deadline fires; [Stuck] is a wait that
    never ends. *)
Fixpoint await (fd : Z) (socks : gmap Z (list frame)) (present : bool)
    (future : list kevent) : wake * gmap Z (list frame) * bool * list kevent :=
  if fd_ready socks present fd then (Readable, socks, present, future)
  else
    match future with
    | [] => (Stuck, socks, present, [])
    | KDeadline :: rest => (Expired, socks, present, rest)
    | KRemove :: rest => await fd socks false rest
    | KArrive fd' fs :: rest => await fd (k_enqueue socks fd' fs) present rest
    end.

(** Modelled from the spec: the blocking step as a request to the kernel;
    what arrived or changed while the caller slept is in the kernel state it
    gives back. *)
Definition k_block (k : kernel) (fd : Z) : wake * kernel :=
  let '(wk, socks, present, future) :=
    await fd (ksocks k) (kpresent k) (kfuture k) in
  (wk, mk_kernel (kgroups k) socks present (knext_fd k) future
         (klog k ++ [SysPoll fd])).

Section Wait.

Variable Out : Type.
Variable matcher : notification -> option Out.

(** Modelled from the spec: the one-shot callback (section 4.4, a to c): a
    notification the matcher accepts puts the outcome in the frame, fills the
    result slot if it still holds the sentinel, marks the exchange complete
    and asks the engine to stop; any other notification is passed over. *)
Definition wait_cb (n : notification) (fr : wait_frame Out) : Z * wait_frame Out :=
  match matcher n with
  | None => (0, fr)
  | Some o =>
      (- EBUSY,
       if result (wctx fr) =? - EINPROGRESS
       then mk_wait_frame (mk_cb_context (wmx (wctx fr)) 0 true) (Some o)
       else fr)
  end.

(** Modelled from the spec: running the installed callback during a wait
    (section 4.4): the engine runs over the application's state paired with
    the frame of the wait. *)
Definition invoke_wait (c : cb_ref) (wmx : ptr) (ctx : ctx_ref)
    (n : notification) (s : world * wait_frame Out) : Z * (world * wait_frame Out) :=
  match c with
  | UserCb f =>
      let (r, w') := user_cb f wmx ctx n (fst s) in (r, (w', snd s))
  | WaitCb =>
      let (r, fr') := wait_cb n (snd s) in (r, (fst s, fr'))
  end.

(** Modelled from the spec: the loop of the synchronous wait (section 4.4):
    block until the descriptor is readable, run the dispatch engine, look at
    the completion flag; stop on completion, on a handle that is no longer
    valid, or on the deadline.  [None]: no return within [fuel] rounds. *)
Fixpoint wait_loop (fuel : nat) (pipe_id : nat) (fd : Z) (h : handle)
    (k : kernel) (w : world) (fr : wait_frame Out)
    : option (outcome Out * handle * kernel * world) :=
  match fuel with
  | O => None
  | S fuel' =>
      match k_block k fd with
      | (Stuck, _) => None
      | (Expired, k1) => Some (Err Timeout, h, k1, w)
      | (Readable, k1) =>
          let '(_, h2, k2, (w2, fr2), _) :=
            dispatch (world * wait_frame Out) invoke_wait h k1 (w, fr) pipe_id in
          match msg_done (wctx fr2), wout fr2 with
          | true, Some o => Some (Ok o, h2, k2, w2)
          | _, _ =>
              if negb (hvalid h2) then Some (Err DeviceGone, h2, k2, w2)
              else wait_loop fuel' pipe_id fd h2 k2 w2 fr2
          end
      end
  end.

(** Modelled from the spec: [wait_for(pipe_id, matcher) -> Outcome | Error]
    (section 4.4): save the installed callback and context, install the
    one-shot callback, run the loop, put the saved pair back. *)
Definition wait_for (fuel : nat) (h : handle) (k : kernel) (w : world)
    (pipe_id : nat) : option (outcome Out * handle * kernel * world) :=
  if negb (hvalid h) then Some (Err DeviceGone, h, k, w)
  else
    match hpipes h !! pipe_id with
    | None => Some (Err BadPipeId, h, k, w)
    | Some p =>
        let (saved_cb, saved_ctx) := wimaxll_pipe_get_cb_msg_to_user h pipe_id in
        let h1 := wimaxll_pipe_set_cb_msg_to_user h pipe_id (Some WaitCb) CtxWait in
        let fr :=
          mk_wait_frame
            (WIMAXLL_GNL_CB_CONTEXT_INIT EINPROGRESS (Some (hself h))) None in
        match wait_loop fuel pipe_id (pfd p) h1 k w fr with
        | None => None
        | Some (r, h2, k2, w2) =>
            Some (r,
                  wimaxll_pipe_set_cb_msg_to_user h2 pipe_id saved_cb saved_ctx,
                  k2, w2)
        end
    end.

End Wait.

(** Modelled from the spec: the matcher of section 4.4, "this is a
    state-change event". *)
Definition state_change_matcher (n : notification)
    : option (wimax_st * wimax_st) :=
  match n with
  | StateChange old_state new_state => Some (old_state, new_state)
  | MsgToUser _ => None
  end.

(** Modelled from the spec: [wait_for_state_change(handle) -> (old_state,
    new_state) | error], the missing body of
    [wimaxll_wait_for_state_change]: the synchronous wait on the control
    pipe with the state-change matcher; the pair stands for the two
    out-parameters. *)
Definition wimaxll_wait_for_state_change (fuel : nat) (h : handle)
    (k : kernel) (w : world)
    : option (outcome (wimax_st * wimax_st) * handle * kernel * world) :=
  wait_for (wimax_st * wimax_st) state_change_matcher fuel h k w O.

(** The values the callback behind [c] returns when it is handed the
    notifications one after the other, and the state it leaves. *)
Fixpoint cb_trace (c : cb_ref) (wmx : ptr) (ctx : ctx_ref)
    (ns : list notification) (w : world) : list Z * world :=
  match ns with
  | [] => ([], w)
  | n :: ns' =>
      let (r, w1) := invoke_user c wmx ctx n w in
      let (rs, w2) := cb_trace c wmx ctx ns' w1 in
      (r :: rs, w2)
  end.

(** Modelled from the spec: the number a call returns in C (section 6): the
    result, or the negative error number; the header documents [-ENODEV] for
    a device that is gone and leaves the other numbers open. *)
Variable errno_other : error -> Z.

Definition errno (e : error) : Z :=
  match e with
  | DeviceGone => ENODEV
  | _ => errno_other e
  end.

Definition c_return {A} (to_int : A -> Z) (r : outcome A) : Z :=
  match r with
  | Ok a => to_int a
  | Err e => - errno e
  end.

(** The operations a caller can make on a handle that the design document
    lists as failing once the device is gone. *)
Inductive op :=
| OpRead (pipe_id : nat)
| OpWrite (pipe_id : nat) (data : list byte)
| OpOpen (name : string)
| OpWait (fuel : nat).

(** One operation, as the caller sees it: the integer returned and the state
    left; [None] when a wait does not return. *)
Definition run_op (o : op) (st : handle * kernel * world)
    : option (Z * (handle * kernel * world)) :=
  let '(h, k, w) := st in
  match o with
  | OpRead pipe_id =>
      let '(r, h', k', w', _) := wimaxll_pipe_read h k w pipe_id in
      Some (c_return id r, (h', k', w'))
  | OpWrite pipe_id data =>
      let '(r, h', k') := pipe_write h k pipe_id data in
      Some (c_return id r, (h', k', w))
  | OpOpen name =>
      let '(r, h', k') := wimaxll_pipe_open h k name in
      Some (c_return id r, (h', k', w))
  | OpWait fuel =>
      match wimaxll_wait_for_state_change fuel h k w with
      | None => None
      | Some (r, h', k', w') => Some (c_return (fun _ => 0) r, (h', k', w'))
      end
  end.

Fixpoint run_ops (os : list op) (st : handle * kernel * world)
    : option (list Z * (handle * kernel * world)) :=
  match os with
  | [] => Some ([], st)
  | o :: os' =>
      match run_op o st with
      | None => None
      | Some (z, st1) =>
          match run_ops os' st1 with
          | None => None
          | Some (zs, st2) => Some (z :: zs, st2)
          end
      end
  end.

End Engine.


(** ** Sample data for running the engine *)

(** One context in the application's memory, its result slot still pending
    ([EINPROGRESS] is 115 in the examples). *)
Definition sample_heap : heap :=
  {[ 5%positive := mk_cb_context (Some 9%positive) (-115) true ]}.

(** Two contexts: the one at 5 pending, the one at 6 holding a final
    result. *)
Definition sample_heap2 : heap :=
  <[6%positive := mk_cb_context (Some 9%positive) 0 false]> sample_heap.

(** A toy codec, only for the examples: an empty frame does not decode, a
    frame [01 o n] is a state change, any other frame is a driver message. *)
Definition sample_decode (f : frame) : outcome notification :=
  match f with
  | [] => Err MalformedFrame
  | b :: rest =>
      if Byte.eqb b x01 then
        match rest with
        | [o; n] => Ok (StateChange (Z.of_N (Byte.to_N o)) (Z.of_N (Byte.to_N n)))
        | _ => Err MalformedFrame
        end
      else Ok (MsgToUser rest)
  end.

Definition sample_encode (data : list byte) : frame := x02 :: data.

(** Callback 0 counts its invocations and asks to stop ([-EBUSY], 16 here)
    on the second one; every other callback only counts. *)
Definition sample_user_cb (f : nat) (wmx : ptr) (ctx : ctx_ref)
    (n : notification) (w : nat) : Z * nat :=
  match f with
  | O => (if Nat.eqb (S w) 2 then -16 else 0, S w)
  | S _ => (0, S w)
  end.

Definition sample_errno (e : error) : Z :=
  match e with
  | BadPipeId => 9
  | WouldBlock => 11
  | _ => 22
  end.

Definition sample_handle : handle :=
  mk_handle "wmx0" true
    (<[1%nat := mk_pipe 2 4 (Some (UserCb 0)) (CtxApp 5%positive)]>
       {[ 0%nat := mk_pipe 1 3 (Some (UserCb 1)) (CtxApp 6%positive) ]})
    1%positive.

Definition gone_handle : handle := with_valid sample_handle false.

Definition sample_kernel : kernel :=
  mk_kernel {[ "diag"%string := 2%nat ]}
    (<[4 := [[x02; x0a]; [x02; x0b]; [x02; x0c]; [x02; x0d]]]>
       {[ 3 := [[x02; x07]; [x01; x03; x04]; [x02; x08]] ]})
    true 5 [] [].


(** * Properties *)

(** ** Byte order helpers *)

Lemma testbit_byte_mask (k n : Z) :
  0 <= k -> 0 <= n ->
  Z.testbit (Z.shiftl (Z.ones 8) k) n = (k <=? n) && (n <? k + 8).
Proof.
  intros Hk Hn.
  rewrite Z.shiftl_spec by assumption.
  rewrite Z.testbit_ones by lia.
  destruct (Z.leb_spec 0 (n - k)), (Z.leb_spec k n),
    (Z.ltb_spec (n - k) 8), (Z.ltb_spec n (k + 8)); simpl; try reflexivity; lia.
Qed.

Lemma testbit_mask_0 (n : Z) :
  0 <= n -> Z.testbit 255 n = (0 <=? n) && (n <? 0 + 8).
Proof. apply (testbit_byte_mask 0). lia. Qed.

Lemma testbit_mask_8 (n : Z) :
  0 <= n -> Z.testbit 65280 n = (8 <=? n) && (n <? 8 + 8).
Proof. apply (testbit_byte_mask 8). lia. Qed.

Lemma testbit_mask_16 (n : Z) :
  0 <= n -> Z.testbit 16711680 n = (16 <=? n) && (n <? 16 + 8).
Proof. apply (testbit_byte_mask 16). lia. Qed.

Lemma testbit_mask_24 (n : Z) :
  0 <= n -> Z.testbit 4278190080 n = (24 <=? n) && (n <? 24 + 8).
Proof. apply (testbit_byte_mask 24). lia. Qed.

Lemma testbit_to_ushort (x n : Z) :
  Z.testbit (to_ushort x) n = (n <? 16) && Z.testbit x n.
Proof. unfold to_ushort. apply Z.testbit_mod_pow2. lia. Qed.

Lemma testbit_to_uint32 (x n : Z) :
  Z.testbit (to_uint32 x) n = (n <? 32) && Z.testbit x n.
Proof. unfold to_uint32. apply Z.testbit_mod_pow2. lia. Qed.

(** Case analysis on every comparison of bit positions in the goal. *)
Ltac split_positions :=
  repeat match goal with
    | |- context [?a <? ?b] => destruct (Z.ltb_spec a b)
    | |- context [?a <=? ?b] => destruct (Z.leb_spec a b)
    end.

Ltac close_bits :=
  simpl;
  rewrite ?andb_true_r, ?andb_false_r, ?orb_false_r, ?orb_false_l;
  try reflexivity; try lia;
  try (f_equal; lia).

Lemma bswap_16_bits (x n : Z) :
  0 <= n ->
  Z.testbit (bswap_16 x) n =
    if n <? 8 then Z.testbit x (n + 8)
    else if n <? 16 then Z.testbit x (n - 8) else false.
Proof.
  intros Hn. unfold bswap_16.
  rewrite Z.lor_spec, Z.land_spec, Z.shiftr_spec, Z.shiftl_spec by assumption.
  rewrite testbit_mask_0 by assumption.
  destruct (Z.le_gt_cases 8 n) as [H8|H8].
  - rewrite Z.land_spec, testbit_mask_0 by lia. split_positions; close_bits.
  - rewrite (Z.testbit_neg_r _ (n - 8)) by lia. split_positions; close_bits.
Qed.

Lemma bswap_32_bits (x n : Z) :
  0 <= n ->
  Z.testbit (bswap_32 x) n =
    if n <? 8 then Z.testbit x (n + 24)
    else if n <? 16 then Z.testbit x (n + 8)
    else if n <? 24 then Z.testbit x (n - 8)
    else if n <? 32 then Z.testbit x (n - 24) else false.
Proof.
  intros Hn. unfold bswap_32.
  rewrite !Z.lor_spec, !Z.shiftr_spec, !Z.shiftl_spec by assumption.
  rewrite (Z.land_spec x 4278190080), (Z.land_spec x 16711680).
  rewrite testbit_mask_24, testbit_mask_16 by lia.
  destruct (Z.le_gt_cases 8 n) as [H8|H8];
    [rewrite (Z.land_spec x 65280), testbit_mask_8 by lia
    |rewrite (Z.testbit_neg_r _ (n - 8)) by lia];
    (destruct (Z.le_gt_cases 24 n) as [H24|H24];
     [rewrite (Z.land_spec x 255), testbit_mask_0 by lia
     |rewrite (Z.testbit_neg_r _ (n - 24)) by lia]);
    split_positions; close_bits.
Qed.

Lemma testbit_ushort_range (x n : Z) :
  0 <= x < 2 ^ 16 -> Z.testbit x n = (n <? 16) && Z.testbit x n.
Proof.
  intros Hx. rewrite <- testbit_to_ushort. unfold to_ushort.
  rewrite Z.mod_small by assumption. reflexivity.
Qed.

Lemma testbit_uint32_range (x n : Z) :
  0 <= x < 2 ^ 32 -> Z.testbit x n = (n <? 32) && Z.testbit x n.
Proof.
  intros Hx. rewrite <- testbit_to_uint32. unfold to_uint32.
  rewrite Z.mod_small by assumption. reflexivity.
Qed.

Lemma wimaxll_swap_16_involutive (x : Z) :
  0 <= x < 2 ^ 16 -> wimaxll_swap_16 (wimaxll_swap_16 x) = x.
Proof.
  intros Hx. apply Z.bits_inj'. intros n Hn.
  unfold wimaxll_swap_16.
  rewrite testbit_to_ushort, bswap_16_bits by assumption.
  rewrite (testbit_ushort_range x n Hx).
  destruct (Z.ltb_spec n 16) as [H16|H16]; simpl.
  - destruct (Z.ltb_spec n 8) as [H8|H8].
    + rewrite testbit_to_ushort, bswap_16_bits by lia.
      split_positions; close_bits.
    + rewrite testbit_to_ushort, bswap_16_bits by lia.
      split_positions; close_bits.
  - reflexivity.
Qed.

Lemma wimaxll_swap_32_involutive (x : Z) :
  0 <= x < 2 ^ 32 -> wimaxll_swap_32 (wimaxll_swap_32 x) = x.
Proof.
  intros Hx. apply Z.bits_inj'. intros n Hn.
  unfold wimaxll_swap_32.
  rewrite bswap_32_bits by assumption.
  rewrite (testbit_uint32_range x n Hx).
  assert (Hin : forall m, 0 <= m < 32 ->
            Z.testbit (to_uint32 (bswap_32 (to_uint32 x))) m =
            Z.testbit x (if m <? 8 then m + 24 else if m <? 16 then m + 8
                         else if m <? 24 then m - 8 else m - 24)).
  { intros m Hm. rewrite testbit_to_uint32, bswap_32_bits by lia.
    rewrite !testbit_to_uint32. split_positions; close_bits. }
  destruct (Z.ltb_spec n 32) as [H32|H32]; simpl.
  - split_positions; try lia; rewrite Hin by lia;
      split_positions; try lia; f_equal; lia.
  - split_positions; try lia; reflexivity.
Qed.

Example wimaxll_swap_16_sample : wimaxll_swap_16 4660 = 13330.
Proof. reflexivity. Qed.

Example wimaxll_swap_32_sample : wimaxll_swap_32 305419896 = 2018915346.
Proof. reflexivity. Qed.

(** On a host whose [unsigned long] has 64 bits the swap only sees the low
    32 bits of its argument. *)
Example wimaxll_swap_32_wide : wimaxll_swap_32 (2 ^ 32 + 1) = 16777216.
Proof. reflexivity. Qed.

(** C9: the conversions to and from little endian undo each other, on a
    little-endian host (both are the identity) and on a big-endian host (both
    are the byte swap), for every 16-bit value and for every 32-bit value. *)
Theorem le_cpu_roundtrip (bo : byte_order) (x16 x32 : Z) :
  0 <= x16 < 2 ^ 16 ->
  0 <= x32 < 2 ^ 32 ->
  wimaxll_le16_to_cpu bo (wimaxll_cpu_to_le16 bo x16) = x16 /\
  wimaxll_le32_to_cpu bo (wimaxll_cpu_to_le32 bo x32) = x32.
Proof.
  intros H16 H32. split; destruct bo; simpl; try reflexivity.
  - apply wimaxll_swap_16_involutive; assumption.
  - apply wimaxll_swap_32_involutive; assumption.
Qed.

Lemma le_cpu_roundtrip_witness :
  wimaxll_le16_to_cpu BIG_ENDIAN (wimaxll_cpu_to_le16 BIG_ENDIAN 4660) = 4660 /\
  wimaxll_le32_to_cpu BIG_ENDIAN (wimaxll_cpu_to_le32 BIG_ENDIAN 305419896)
    = 305419896.
Proof. apply (le_cpu_roundtrip BIG_ENDIAN 4660 305419896); lia. Defined.

(** ** Callback contexts *)

Section CallbackContextFacts.

Variable EINPROGRESS : Z.

Abbreviation set_result := (wimaxll_cb_context_set_result EINPROGRESS).
Abbreviation sentinel := (- EINPROGRESS).

Lemma set_result_pending (h : heap) (a : addr) (c : wimaxll_gnl_cb_context) (v : Z) :
  h !! a = Some c -> result c = sentinel ->
  set_result (Some a) v h =
    Some (tt, <[a := mk_cb_context (wmx c) v (msg_done c)]> h, [Load a; Store a]).
Proof.
  intros Ha Hr. unfold wimaxll_cb_context_set_result, mbind, load_result.
  rewrite Ha, Hr, Z.eqb_refl. unfold store_result. rewrite Ha. reflexivity.
Qed.

Lemma set_result_final (h : heap) (a : addr) (c : wimaxll_gnl_cb_context) (v : Z) :
  h !! a = Some c -> result c <> sentinel ->
  set_result (Some a) v h = Some (tt, h, [Load a]).
Proof.
  intros Ha Hr. unfold wimaxll_cb_context_set_result, mbind, load_result.
  rewrite Ha. apply Z.eqb_neq in Hr. rewrite Hr. reflexivity.
Qed.

Lemma set_results_final (h : heap) (a : addr) (c : wimaxll_gnl_cb_context)
    (vs : list Z) :
  h !! a = Some c -> result c <> sentinel ->
  set_results EINPROGRESS (Some a) vs h = Some (tt, h, map (fun _ => Load a) vs).
Proof.
  intros Ha Hr. induction vs as [|v vs IH]; [reflexivity|].
  cbn [set_results map]. unfold mbind at 1.
  rewrite (set_result_final h a c v Ha Hr), IH. reflexivity.
Qed.

(** C1: a call writes its value only when the slot still holds the
    sentinel; once the slot holds another value every later call leaves the
    whole store as it is, so the first value set is the one that stays. *)
Theorem set_result_first_wins (h : heap) (a : addr)
    (c : wimaxll_gnl_cb_context) (v : Z) (later : list Z) :
  h !! a = Some c ->
  (exists t,
     set_result (Some a) v h =
       Some (tt,
             if result c =? sentinel
             then <[a := mk_cb_context (wmx c) v (msg_done c)]> h else h,
             t)) /\
  (result c <> sentinel ->
   exists t, set_results EINPROGRESS (Some a) later h = Some (tt, h, t)) /\
  (result c = sentinel -> v <> sentinel ->
   exists t,
     set_results EINPROGRESS (Some a) (v :: later) h =
       Some (tt, <[a := mk_cb_context (wmx c) v (msg_done c)]> h, t)).
Proof.
  intros Ha. split; [|split].
  - destruct (Z.eqb_spec (result c) sentinel) as [Hr|Hr].
    + eexists. apply set_result_pending; assumption.
    + eexists. apply set_result_final with (c := c); assumption.
  - intros Hr. eexists. apply set_results_final with (c := c); assumption.
  - intros Hr Hv. eexists. cbn [set_results]. unfold mbind at 1.
    rewrite (set_result_pending h a c v Ha Hr).
    erewrite set_results_final; [reflexivity| apply lookup_insert_eq | exact Hv].
Qed.

(** C10: with a NULL context the call returns at once; it touches no
    memory and leaves the store as it was. *)
Theorem set_result_null_noop (h : heap) (v : Z) :
  set_result NULL v h = Some (tt, h, []).
Proof. reflexivity. Qed.

(** C8: the initializer macro and the initializer function both give a
    context whose [wmx] is the handle passed and whose result slot holds the
    sentinel; the two agree on these fields. *)
Theorem cb_context_init_forms_agree (h : heap) (a : addr)
    (c0 : wimaxll_gnl_cb_context) (w : ptr) :
  h !! a = Some c0 ->
  exists h' c',
    wimaxll_gnl_cb_context_init EINPROGRESS (Some a) w h
      = Some (tt, h', [Store a; Store a]) /\
    h' !! a = Some c' /\
    wmx c' = w /\ result c' = sentinel /\
    wmx (WIMAXLL_GNL_CB_CONTEXT_INIT EINPROGRESS w) = w /\
    result (WIMAXLL_GNL_CB_CONTEXT_INIT EINPROGRESS w) = sentinel /\
    wmx c' = wmx (WIMAXLL_GNL_CB_CONTEXT_INIT EINPROGRESS w) /\
    result c' = result (WIMAXLL_GNL_CB_CONTEXT_INIT EINPROGRESS w).
Proof.
  intros Ha.
  exists (<[a := mk_cb_context w sentinel (msg_done c0)]> h).
  exists (mk_cb_context w sentinel (msg_done c0)).
  split.
  - unfold wimaxll_gnl_cb_context_init, mbind, store_wmx, store_result.
    rewrite Ha. cbv beta iota. rewrite lookup_insert_eq. cbv beta iota.
    rewrite insert_insert_eq. reflexivity.
  - split; [apply lookup_insert_eq|]. repeat split.
Qed.

End CallbackContextFacts.

Lemma set_result_first_wins_witness :
  exists t,
    set_results 115 (Some 5%positive) [7; 8; 9] sample_heap =
      Some (tt,
            <[5%positive := mk_cb_context (Some 9%positive) 7 true]> sample_heap,
            t).
Proof.
  apply (set_result_first_wins 115 sample_heap 5%positive
           (mk_cb_context (Some 9%positive) (-115) true) 7 [8; 9]).
  - reflexivity.
  - reflexivity.
  - discriminate.
Defined.

(** The two forms differ on the member neither names: the macro zeroes
    [msg_done], the function leaves it as it finds it. *)
Example cb_context_init_msg_done :
  msg_done (WIMAXLL_GNL_CB_CONTEXT_INIT 115 (Some 3%positive)) = false /\
  exists h' t,
    wimaxll_gnl_cb_context_init 115 (Some 5%positive) (Some 3%positive) sample_heap
      = Some (tt, h', t) /\
    msg_done <$> h' !! 5%positive = Some true.
Proof. split; [reflexivity|]. eexists _, _. split; reflexivity. Qed.

Lemma cb_context_init_forms_agree_witness :
  exists h' c',
    wimaxll_gnl_cb_context_init 115 (Some 5%positive) (Some 3%positive) sample_heap
      = Some (tt, h', [Store 5%positive; Store 5%positive]) /\
    h' !! 5%positive = Some c' /\
    wmx c' = Some 3%positive /\ result c' = -115 /\
    wmx (WIMAXLL_GNL_CB_CONTEXT_INIT 115 (Some 3%positive)) = Some 3%positive /\
    result (WIMAXLL_GNL_CB_CONTEXT_INIT 115 (Some 3%positive)) = -115 /\
    wmx c' = wmx (WIMAXLL_GNL_CB_CONTEXT_INIT 115 (Some 3%positive)) /\
    result c' = result (WIMAXLL_GNL_CB_CONTEXT_INIT 115 (Some 3%positive)).
Proof.
  apply (cb_context_init_forms_agree 115 sample_heap 5%positive
           (mk_cb_context (Some 9%positive) (-115) true) (Some 3%positive)).
  reflexivity.
Defined.

(** ** The message-pipe engine *)

Section EngineFacts.

Variable EINPROGRESS EBUSY ENODEV : Z.
Variable decode : frame -> outcome notification.
Variable encode : list byte -> frame.
Variable world : Type.
Variable user_cb : nat -> ptr -> ctx_ref -> notification -> world -> Z * world.
Variable errno_other : error -> Z.

Abbreviation pipe_read := (wimaxll_pipe_read decode world user_cb).
Abbreviation wait_for_state_change :=
  (wimaxll_wait_for_state_change EINPROGRESS EBUSY decode world user_cb).
Abbreviation run :=
  (run_ops EINPROGRESS EBUSY ENODEV decode encode world user_cb errno_other).

Lemma pipe_read_gone (h : handle) (k : kernel) (w : world) (pipe_id : nat) :
  hvalid h = false ->
  pipe_read h k w pipe_id = (Err DeviceGone, h, k, w, []).
Proof.
  intros Hv. unfold wimaxll_pipe_read, dispatch. rewrite Hv. reflexivity.
Qed.

Lemma pipe_write_gone (h : handle) (k : kernel) (pipe_id : nat) (data : list byte) :
  hvalid h = false ->
  pipe_write encode h k pipe_id data = (Err DeviceGone, h, k).
Proof. intros Hv. unfold pipe_write. rewrite Hv. reflexivity. Qed.

Lemma pipe_open_gone (h : handle) (k : kernel) (name : string) :
  hvalid h = false ->
  wimaxll_pipe_open h k name = (Err DeviceGone, h, k).
Proof. intros Hv. unfold wimaxll_pipe_open. rewrite Hv. reflexivity. Qed.

Lemma wait_gone (fuel : nat) (h : handle) (k : kernel) (w : world) :
  hvalid h = false ->
  wait_for_state_change fuel h k w = Some (Err DeviceGone, h, k, w).
Proof.
  intros Hv. unfold wimaxll_wait_for_state_change, wait_for.
  rewrite Hv. reflexivity.
Qed.

(** The kernel reporting the device gone during a read is what marks a
    handle: the read fails and the handle is invalid from then on. *)
Lemma pipe_read_marks_gone (h : handle) (k : kernel) (w : world)
    (pipe_id : nat) (p : pipe) :
  hvalid h = true -> kpresent k = false -> hpipes h !! pipe_id = Some p ->
  exists k', pipe_read h k w pipe_id
               = (Err DeviceGone, with_valid h false, k', w, []).
Proof.
  intros Hv Hp Hl. unfold wimaxll_pipe_read, dispatch.
  rewrite Hv, Hl, Hp. simpl. eexists. reflexivity.
Qed.

(** C4: on a handle marked as gone, read, write, open_pipe and wait each
    return the device-gone error, [-ENODEV] in C, and leave the handle, the
    kernel (its request log included) and the application as they were; so
    does every further call, in any order. *)
Theorem device_gone_every_call (h : handle) (k : kernel) (w : world)
    (os : list op) :
  hvalid h = false ->
  (forall pipe_id, pipe_read h k w pipe_id = (Err DeviceGone, h, k, w, [])) /\
  (forall pipe_id data,
     pipe_write encode h k pipe_id data = (Err DeviceGone, h, k)) /\
  (forall name, wimaxll_pipe_open h k name = (Err DeviceGone, h, k)) /\
  (forall fuel,
     wait_for_state_change fuel h k w = Some (Err DeviceGone, h, k, w)) /\
  run os (h, k, w) = Some (map (fun _ => - ENODEV) os, (h, k, w)).
Proof.
  intros Hv.
  split; [intros; apply pipe_read_gone; assumption|].
  split; [intros; apply pipe_write_gone; assumption|].
  split; [intros; apply pipe_open_gone; assumption|].
  split; [intros; apply wait_gone; assumption|].
  induction os as [|o os IH]; [reflexivity|].
  cbn [run_ops map].
  assert (Ho : run_op EINPROGRESS EBUSY ENODEV decode encode world user_cb
                 errno_other o (h, k, w) = Some (- ENODEV, (h, k, w))).
  { destruct o as [pipe_id|pipe_id data|name|fuel]; unfold run_op.
    - rewrite pipe_read_gone by assumption. reflexivity.
    - rewrite pipe_write_gone by assumption. reflexivity.
    - rewrite pipe_open_gone by assumption. reflexivity.
    - rewrite wait_gone by assumption. reflexivity. }
  rewrite Ho, IH. reflexivity.
Qed.

(** ** Closing pipes *)

Lemma pipe_close_not_open (h : handle) (k : kernel) (pipe_id : nat) :
  hpipes h !! pipe_id = None ->
  wimaxll_pipe_close h k pipe_id = (Nothing, h, k).
Proof.
  intros Hl. unfold wimaxll_pipe_close. rewrite Hl.
  destruct pipe_id; reflexivity.
Qed.

Lemma pipe_close_returns_nothing (h : handle) (k : kernel) (pipe_id : nat) :
  fst (fst (wimaxll_pipe_close h k pipe_id)) = Nothing.
Proof.
  unfold wimaxll_pipe_close.
  destruct pipe_id; [reflexivity|]. destruct (hpipes h !! S pipe_id); reflexivity.
Qed.

Lemma pipe_close_registry (h : handle) (k : kernel) (pipe_id : nat) :
  pipe_id <> O ->
  hpipes (snd (fst (wimaxll_pipe_close h k pipe_id))) = delete pipe_id (hpipes h).
Proof.
  intros Hid. unfold wimaxll_pipe_close.
  destruct pipe_id as [|n]; [congruence|].
  destruct (hpipes h !! S n) eqn:Hl; simpl; [reflexivity|].
  symmetry. apply delete_id. assumption.
Qed.

(** C7, as the code has it: closing is declared [void]; closing an id that
    is not open changes nothing at all; closing any id leaves the registry
    entries of the other pipes, and their sockets, as they were; after a
    close of a named pipe's id, the descriptor query fails with [BadPipeId]
    and a second close changes nothing. *)
Theorem pipe_close_is_safe (h : handle) (k : kernel) (pipe_id : nat) :
  let h' := snd (fst (wimaxll_pipe_close h k pipe_id)) in
  let k' := snd (wimaxll_pipe_close h k pipe_id) in
  fst (fst (wimaxll_pipe_close h k pipe_id)) = Nothing /\
  (hpipes h !! pipe_id = None ->
   wimaxll_pipe_close h k pipe_id = (Nothing, h, k)) /\
  (forall j, j <> pipe_id -> hpipes h' !! j = hpipes h !! j) /\
  (forall j q, j <> pipe_id -> hpipes h !! j = Some q ->
     (forall p, hpipes h !! pipe_id = Some p -> pfd p <> pfd q) ->
     ksocks k' !! pfd q = ksocks k !! pfd q) /\
  (pipe_id <> O -> wimaxll_pipe_fd h' pipe_id = Err BadPipeId) /\
  (pipe_id <> O -> wimaxll_pipe_close h' k' pipe_id = (Nothing, h', k')).
Proof.
  intros h' k'.
  split; [apply pipe_close_returns_nothing|].
  split; [apply pipe_close_not_open|].
  assert (Hreg : pipe_id <> O -> hpipes h' = delete pipe_id (hpipes h))
    by apply pipe_close_registry.
  split; [|split; [|split]].
  - intros j Hj. subst h'. unfold wimaxll_pipe_close.
    destruct pipe_id as [|n]; [reflexivity|].
    destruct (hpipes h !! S n); simpl; [|reflexivity].
    apply lookup_delete_ne. congruence.
  - intros j q Hj Hq Hfd. subst k'. unfold wimaxll_pipe_close.
    destruct pipe_id as [|n]; [reflexivity|].
    destruct (hpipes h !! S n) as [p|] eqn:Hl; simpl; [|reflexivity].
    apply lookup_delete_ne. apply Hfd. reflexivity.
  - intros Hid. unfold wimaxll_pipe_fd. rewrite (Hreg Hid), lookup_delete_eq.
    reflexivity.
  - intros Hid. apply pipe_close_not_open. rewrite (Hreg Hid).
    apply lookup_delete_eq.
Qed.

(** ** The synchronous wait *)

Lemma dispatch_keeps_registry (W : Type)
    (invoke : cb_ref -> ptr -> ctx_ref -> notification -> W -> Z * W)
    (h : handle) (k : kernel) (w : W) (pipe_id : nat)
    (r : outcome Z) (h2 : handle) (k2 : kernel) (w2 : W)
    (fired : list notification) :
  dispatch decode W invoke h k w pipe_id = (r, h2, k2, w2, fired) ->
  hpipes h2 = hpipes h.
Proof.
  unfold dispatch. intros H.
  destruct (negb (hvalid h)); [congruence|].
  destruct (hpipes h !! pipe_id) as [p|]; [|congruence].
  destruct (negb (kpresent k)); [inversion H; reflexivity|].
  destruct (k_queue k (pfd p)) as [|f q]; [congruence|].
  destruct (drain decode W invoke (Some (hself h)) (pcb p) (pctx p) (pfd p)
              (f :: q) w) as [[[[rest w'] b] fd'] sys].
  congruence.
Qed.

Lemma wait_loop_keeps_registry (Out : Type) (matcher : notification -> option Out)
    (fuel pipe_id : nat) (fd : Z) :
  forall (h : handle) (k : kernel) (w : world) (fr : wait_frame Out)
         (r : outcome Out) (h2 : handle) (k2 : kernel) (w2 : world),
    wait_loop EINPROGRESS EBUSY decode world user_cb Out matcher
      fuel pipe_id fd h k w fr = Some (r, h2, k2, w2) ->
    hpipes h2 = hpipes h.
Proof.
  induction fuel as [|fuel IH]; intros h k w fr r h2 k2 w2 H; [discriminate|].
  cbn [wait_loop] in H.
  destruct (k_block k fd) as [[| |] k1]; [|congruence|discriminate].
  destruct (dispatch decode (world * wait_frame Out)
              (invoke_wait EINPROGRESS EBUSY world user_cb Out matcher)
              h k1 (w, fr) pipe_id) as [[[[r0 h3] k3] [w3 fr3]] fired] eqn:Hd.
  apply dispatch_keeps_registry in Hd.
  assert (Hrest :
            (if negb (hvalid h3) then Some (Err DeviceGone, h3, k3, w3)
             else wait_loop EINPROGRESS EBUSY decode world user_cb Out matcher
                    fuel pipe_id fd h3 k3 w3 fr3) = Some (r, h2, k2, w2) ->
            hpipes h2 = hpipes h).
  { destruct (negb (hvalid h3)); intros H'.
    - inversion H'; subst. assumption.
    - rewrite <- Hd. eapply IH. eassumption. }
  destruct (msg_done (wctx fr3)); [|auto].
  destruct (wout fr3); [|auto].
  inversion H; subst. assumption.
Qed.

Lemma set_cb_back (h h2 : handle) (pipe_id : nat) (p : pipe)
    (cb : option cb_ref) (ctx : ctx_ref) :
  hpipes h !! pipe_id = Some p ->
  hpipes h2 = hpipes (wimaxll_pipe_set_cb_msg_to_user h pipe_id cb ctx) ->
  hpipes (wimaxll_pipe_set_cb_msg_to_user h2 pipe_id (pcb p) (pctx p)) = hpipes h.
Proof.
  intros Hl H2. unfold wimaxll_pipe_set_cb_msg_to_user in *. rewrite Hl in H2.
  simpl in H2. rewrite H2, lookup_insert_eq. simpl.
  rewrite insert_insert_eq. destruct p. simpl.
  apply insert_id. assumption.
Qed.

Lemma wait_for_keeps_registry (Out : Type) (matcher : notification -> option Out)
    (fuel : nat) (h : handle) (k : kernel) (w : world) (pipe_id : nat)
    (r : outcome Out) (h' : handle) (k' : kernel) (w' : world) :
  wait_for EINPROGRESS EBUSY decode world user_cb Out matcher fuel h k w pipe_id
    = Some (r, h', k', w') ->
  hpipes h' = hpipes h.
Proof.
  unfold wait_for. intros H.
  destruct (negb (hvalid h)); [inversion H; reflexivity|].
  destruct (hpipes h !! pipe_id) as [p|] eqn:Hl; [|inversion H; reflexivity].
  unfold wimaxll_pipe_get_cb_msg_to_user in H. rewrite Hl in H.
  destruct (wait_loop _ _ _ _ _ _ _ _ _ _ _ _ _ _) as [[[[r2 h2] k2] w2]|] eqn:Hw;
    [|discriminate].
  apply wait_loop_keeps_registry in Hw.
  inversion H; subst. eapply set_cb_back; eassumption.
Qed.

(** C6: whenever the wait for a state change returns, with a pair or with an
    error, the callback and the context installed on the control pipe are
    the ones installed before the call, and so is the whole registry. *)
Theorem wait_restores_callback (fuel : nat) (h : handle) (k : kernel)
    (w : world) (r : outcome (wimax_st * wimax_st)) (h' : handle)
    (k' : kernel) (w' : world) :
  wait_for_state_change fuel h k w = Some (r, h', k', w') ->
  wimaxll_pipe_get_cb_msg_to_user h' O = wimaxll_pipe_get_cb_msg_to_user h O /\
  hpipes h' = hpipes h.
Proof.
  intros H. apply wait_for_keeps_registry in H.
  split; [|assumption].
  unfold wimaxll_pipe_get_cb_msg_to_user. rewrite H. reflexivity.
Qed.

(** *** A state change that is already queued *)

Lemma await_ready (fd : Z) (socks : gmap Z (list frame)) (present : bool)
    (future : list kevent) :
  fd_ready socks present fd = true ->
  await fd socks present future = (Readable, socks, present, future).
Proof. intros H. destruct future; simpl; rewrite H; reflexivity. Qed.

Lemma dispatch_ready (W : Type)
    (invoke : cb_ref -> ptr -> ctx_ref -> notification -> W -> Z * W)
    (h : handle) (k : kernel) (w : W) (pipe_id : nat) (p : pipe)
    (f : frame) (q rest : list frame) (w' : W) (b : Z)
    (fired : list notification) (sys : list syscall) :
  hvalid h = true ->
  hpipes h !! pipe_id = Some p ->
  kpresent k = true ->
  ksocks k !! pfd p = Some (f :: q) ->
  drain decode W invoke (Some (hself h)) (pcb p) (pctx p) (pfd p) (f :: q) w
    = (rest, w', b, fired, sys) ->
  dispatch decode W invoke h k w pipe_id =
    (Ok b, h, k_log (k_with_socks k (<[pfd p := rest]> (ksocks k))) sys,
     w', fired).
Proof.
  intros Hv Hl Hp Hq Hd. unfold dispatch, k_queue.
  rewrite Hv, Hl, Hp, Hq. cbn [negb default from_option id].
  rewrite Hd. reflexivity.
Qed.

Section QueuedMatch.

Variable Out : Type.
Variable matcher : notification -> option Out.
Hypothesis EBUSY_pos : 0 < EBUSY.

Abbreviation drain_wait :=
  (drain decode (world * wait_frame Out)
     (invoke_wait EINPROGRESS EBUSY world user_cb Out matcher)).

(** The one-shot callback passes over what the matcher rejects and stops the
    drain at the first notification it accepts. *)
Lemma drain_wait_finds (hw : ptr) (ctx : ctx_ref) (fd : Z) (f : frame)
    (post : list frame) (n : notification) (o : Out) (w : world)
    (fr : wait_frame Out) :
  result (wctx fr) = - EINPROGRESS ->
  decode f = Ok n ->
  matcher n = Some o ->
  forall pre : list frame,
    Forall (fun g => forall m, decode g = Ok m -> matcher m = None) pre ->
    exists b fired sys,
      drain_wait hw (Some WaitCb) ctx fd (pre ++ f :: post) (w, fr) =
        (post,
         (w, mk_wait_frame (mk_cb_context (wmx (wctx fr)) 0 true) (Some o)),
         b, fired, sys).
Proof.
  intros Hres Hf Hm. induction pre as [|g pre IH]; intros Hpre.
  - cbn [app drain]. rewrite Hf. cbn [invoke_wait snd fst].
    unfold wait_cb. rewrite Hm, Hres, Z.eqb_refl.
    replace (- EBUSY <? 0) with true by (symmetry; apply Z.ltb_lt; lia).
    eauto.
  - inversion Hpre as [|g' pre' Hg Hrest]; subst.
    destruct (IH Hrest) as (b & fired & sys & Hd).
    cbn [app drain]. destruct (decode g) as [m|e] eqn:Hdg.
    + cbn [invoke_wait snd fst]. unfold wait_cb at 1.
      rewrite (Hg m eq_refl). change (0 <? 0) with false. cbv iota.
      rewrite Hd. eauto.
    + rewrite Hd. eauto.
Qed.

End QueuedMatch.

(** The wait returns: called while a state change is queued on the control
    pipe behind frames that are none, it returns that pair in its first
    round, leaves the frames behind it queued and the handle as it was. *)
Lemma wait_returns_queued_match (fuel : nat) (h : handle) (k : kernel)
    (w : world) (p : pipe) (pre post : list frame) (f : frame)
    (old_state new_state : wimax_st) :
  0 < EBUSY ->
  hvalid h = true ->
  kpresent k = true ->
  hpipes h !! O = Some p ->
  ksocks k !! pfd p = Some (pre ++ f :: post) ->
  decode f = Ok (StateChange old_state new_state) ->
  Forall (fun g => forall m, decode g = Ok m -> state_change_matcher m = None)
    pre ->
  exists k',
    wait_for_state_change (S fuel) h k w
      = Some (Ok (old_state, new_state), h, k', w) /\
    ksocks k' !! pfd p = Some post.
Proof.
  intros Hpos Hv Hp Hl Hq Hf Hpre.
  set (h1 := wimaxll_pipe_set_cb_msg_to_user h O (Some WaitCb) CtxWait).
  set (p1 := mk_pipe (pgroup p) (pfd p) (Some WaitCb) CtxWait).
  set (fr := mk_wait_frame
               (WIMAXLL_GNL_CB_CONTEXT_INIT EINPROGRESS (Some (hself h)))
               (@None (wimax_st * wimax_st))).
  assert (Hh1 : h1 = with_pipes h (<[O := p1]> (hpipes h))).
  { unfold h1, wimaxll_pipe_set_cb_msg_to_user. rewrite Hl. reflexivity. }
  assert (Hl1 : hpipes h1 !! O = Some p1).
  { rewrite Hh1. apply lookup_insert_eq. }
  destruct (drain_wait_finds (wimax_st * wimax_st) state_change_matcher Hpos
              (Some (hself h1)) (pctx p1) (pfd p1) f post
              (StateChange old_state new_state) (old_state, new_state) w fr
              eq_refl Hf eq_refl pre Hpre) as (b & fired & sys & Hd).
  set (k1 := mk_kernel (kgroups k) (ksocks k) (kpresent k) (knext_fd k)
               (kfuture k) (klog k ++ [SysPoll (pfd p)])).
  assert (Hblock : k_block k (pfd p) = (Readable, k1)).
  { unfold k_block. rewrite await_ready; [reflexivity|].
    unfold fd_ready. rewrite Hq, Hp. destruct pre; reflexivity. }
  assert (Hne : exists g gs, pre ++ f :: post = g :: gs)
    by (destruct pre; simpl; eauto).
  destruct Hne as (g & gs & Hg). rewrite Hg in Hd, Hq.
  pose proof (dispatch_ready (world * wait_frame (wimax_st * wimax_st))
                (invoke_wait EINPROGRESS EBUSY world user_cb
                   (wimax_st * wimax_st) state_change_matcher)
                h1 k1 (w, fr) O p1 g gs _ _ _ _ _
                ltac:(rewrite Hh1; exact Hv) Hl1 Hp Hq Hd) as Hdisp.
  eexists. split.
  - unfold wimaxll_wait_for_state_change, wait_for, wimaxll_pipe_get_cb_msg_to_user.
    rewrite Hv, Hl. cbn [negb]. fold h1. fold fr.
    cbn [wait_loop]. rewrite Hblock. rewrite Hdisp.
    cbn [wctx wout msg_done].
    f_equal. f_equal. f_equal. f_equal.
    unfold wimaxll_pipe_set_cb_msg_to_user. rewrite Hl1. cbn [pgroup pfd p1].
    rewrite Hh1. unfold with_pipes. cbn [hname hvalid hpipes hself].
    rewrite insert_insert_eq.
    replace (mk_pipe (pgroup p) (pfd p) (pcb p) (pctx p)) with p
      by (destruct p; reflexivity).
    rewrite (insert_id _ _ _ Hl). destruct h; reflexivity.
  - cbn [k_log k_with_socks ksocks]. apply lookup_insert_eq.
Qed.

(** ** Stopping a read and resuming it *)

Abbreviation drain_user := (drain decode world (invoke_user world user_cb)).
Abbreviation trace := (cb_trace world user_cb).

Lemma map_decode_cons (f : frame) (fs : list frame) (ns : list notification) :
  map decode (f :: fs) = map Ok ns ->
  exists n ns', ns = n :: ns' /\ decode f = Ok n /\ map decode fs = map Ok ns'.
Proof.
  destruct ns as [|n ns']; simpl; intros H; [discriminate|].
  inversion H. eauto.
Qed.

(** The callback returns 0 on the first [j] notifications and a negative
    value on the next: the drain hands it exactly these [j + 1] and leaves
    the other frames queued, in order. *)
Lemma drain_stops (wmx : ptr) (c : cb_ref) (ctx : ctx_ref) (fd : Z) (r : Z) :
  forall (j : nat) (fs : list frame) (ns : list notification) (w : world),
    map decode fs = map Ok ns ->
    (j < length fs)%nat ->
    fst (trace c wmx ctx (take (S j) ns) w) = replicate j 0 ++ [r] ->
    r < 0 ->
    exists b sys,
      drain_user wmx (Some c) ctx fd fs w =
        (drop (S j) fs, snd (trace c wmx ctx (take (S j) ns) w), b,
         take (S j) ns, sys).
Proof.
  induction j as [|j IH]; intros fs ns w Hdec Hlen Hret Hneg.
  - destruct fs as [|f fs]; [simpl in Hlen; lia|].
    destruct (map_decode_cons f fs ns Hdec) as (n & ns' & -> & Hf & Hfs).
    cbn [drain firstn cb_trace] in *. rewrite Hf.
    destruct (invoke_user world user_cb c wmx ctx n w) as [r0 w1].
    destruct ns'; cbn [firstn cb_trace fst snd replicate app] in *;
      inversion Hret; subst r0;
      apply Z.ltb_lt in Hneg; rewrite Hneg; eauto.
  - destruct fs as [|f fs]; [simpl in Hlen; lia|].
    destruct (map_decode_cons f fs ns Hdec) as (n & ns' & -> & Hf & Hfs).
    cbn [length] in Hlen.
    specialize (IH fs ns').
    cbn [drain]. rewrite Hf.
    change (take (S (S j)) (n :: ns')) with (n :: take (S j) ns') in *.
    cbn [cb_trace] in *.
    destruct (invoke_user world user_cb c wmx ctx n w) as [r0 w1].
    specialize (IH w1 Hfs ltac:(lia)).
    destruct (trace c wmx ctx (take (S j) ns') w1) as [rs w2] eqn:Ht.
    cbn [fst snd replicate app] in *.
    inversion Hret as [[Hr0 Hrs]]. subst r0.
    destruct (IH Hrs Hneg) as (b & sys & Hd).
    change (0 <? 0) with false. cbv iota.
    rewrite Hd. cbn [skipn]. eauto.
Qed.

(** The callback never asks to stop: the drain hands it every notification
    and empties the queue. *)
Lemma drain_all (wmx : ptr) (c : cb_ref) (ctx : ctx_ref) (fd : Z) :
  forall (fs : list frame) (ns : list notification) (w : world),
    map decode fs = map Ok ns ->
    forallb (fun r => 0 <=? r) (fst (trace c wmx ctx ns w)) = true ->
    exists b sys,
      drain_user wmx (Some c) ctx fd fs w =
        ([], snd (trace c wmx ctx ns w), b, ns, sys).
Proof.
  induction fs as [|f fs IH]; intros ns w Hdec Hret.
  - destruct ns; [|discriminate]. simpl. eauto.
  - destruct (map_decode_cons f fs ns Hdec) as (n & ns' & -> & Hf & Hfs).
    cbn [drain cb_trace] in *. rewrite Hf.
    destruct (invoke_user world user_cb c wmx ctx n w) as [r0 w1].
    specialize (IH ns' w1 Hfs).
    destruct (trace c wmx ctx ns' w1) as [rs w2] eqn:Ht.
    cbn [fst snd forallb] in *.
    apply andb_true_iff in Hret as [Hr0 Hrs].
    destruct (IH Hrs) as (b & sys & Hd).
    replace (r0 <? 0) with false
      by (symmetry; apply Z.ltb_ge; apply Z.leb_le; assumption).
    rewrite Hd. eauto.
Qed.

(** Whatever the callback answers, what a drain hands it is a prefix of the
    queued notifications, and the frames left are the ones behind it. *)
Lemma drain_prefix (wmx : ptr) (c : cb_ref) (ctx : ctx_ref) (fd : Z) :
  forall (fs : list frame) (ns : list notification) (w : world),
    map decode fs = map Ok ns ->
    exists m b sys w',
      (fs <> [] -> (1 <= m)%nat) /\
      drain_user wmx (Some c) ctx fd fs w = (drop m fs, w', b, take m ns, sys).
Proof.
  induction fs as [|f fs IH]; intros ns w Hdec.
  - destruct ns; [|discriminate]. exists 0%nat.
    do 3 eexists. split; [congruence|reflexivity].
  - destruct (map_decode_cons f fs ns Hdec) as (n & ns' & -> & Hf & Hfs).
    cbn [drain]. rewrite Hf.
    destruct (invoke_user world user_cb c wmx ctx n w) as [r0 w1].
    destruct (r0 <? 0).
    + exists 1%nat. cbn [skipn firstn].
      do 3 eexists. split; [lia|]. destruct ns'; reflexivity.
    + destruct (IH ns' w1 Hfs) as (m & b & sys & w' & _ & Hd).
      exists (S m). rewrite Hd. cbn [skipn firstn].
      do 3 eexists. split; [lia|reflexivity].
Qed.

(** C5: with [N] decodable frames queued and a callback that returns 0 on
    the first [k - 1] and a negative value on the [k]-th, [k < N], one read
    runs the callback on exactly the first [k] notifications and leaves the
    other [N - k] frames queued in order; the next read hands the callback
    these, starting with the first of them and in order: all of them when it
    does not ask to stop again. *)
Theorem pipe_read_stop_then_resume (h : handle) (k : kernel) (w : world)
    (pipe_id : nat) (p : pipe) (c : cb_ref) (fs : list frame)
    (ns : list notification) (kk : nat) (r : Z) :
  hvalid h = true ->
  kpresent k = true ->
  hpipes h !! pipe_id = Some p ->
  pcb p = Some c ->
  ksocks k !! pfd p = Some fs ->
  map decode fs = map Ok ns ->
  (1 <= kk < length fs)%nat ->
  fst (trace c (Some (hself h)) (pctx p) (take kk ns) w)
    = replicate (kk - 1) 0 ++ [r] ->
  r < 0 ->
  exists b k1 w1,
    pipe_read h k w pipe_id = (Ok b, h, k1, w1, take kk ns) /\
    w1 = snd (trace c (Some (hself h)) (pctx p) (take kk ns) w) /\
    length (take kk ns) = kk /\
    ksocks k1 !! pfd p = Some (drop kk fs) /\
    length (drop kk fs) = (length fs - kk)%nat /\
    (exists m b2 k2 w2,
       (1 <= m)%nat /\
       pipe_read h k1 w1 pipe_id
         = (Ok b2, h, k2, w2, take m (drop kk ns)) /\
       ksocks k2 !! pfd p = Some (drop m (drop kk fs))) /\
    (forallb (fun r => 0 <=? r)
       (fst (trace c (Some (hself h)) (pctx p) (drop kk ns) w1)) = true ->
     exists b2 k2,
       pipe_read h k1 w1 pipe_id =
         (Ok b2, h, k2,
          snd (trace c (Some (hself h)) (pctx p) (drop kk ns) w1),
          drop kk ns) /\
       ksocks k2 !! pfd p = Some []).
Proof.
  intros Hv Hp Hl Hc Hq Hdec Hk Hret Hneg.
  assert (Hlen : length ns = length fs).
  { apply (f_equal (@length _)) in Hdec. rewrite !length_map in Hdec. lia. }
  destruct kk as [|j]; [lia|].
  replace (S j - 1)%nat with j in Hret by lia.
  destruct (drain_stops (Some (hself h)) c (pctx p) (pfd p) r j fs ns w
              Hdec ltac:(lia) Hret Hneg) as (b & sys & Hd).
  assert (Hfs : exists f fs', fs = f :: fs').
  { destruct fs; [simpl in Hk; lia|eauto]. }
  destruct Hfs as (f & fs' & ->).
  set (k1 := k_log (k_with_socks k (<[pfd p := drop (S j) (f :: fs')]> (ksocks k)))
               sys).
  set (w1 := snd (trace c (Some (hself h)) (pctx p) (take (S j) ns) w)) in *.
  assert (Hq1 : ksocks k1 !! pfd p = Some (drop (S j) (f :: fs')))
    by apply lookup_insert_eq.
  assert (Hdec2 : map decode (drop (S j) (f :: fs')) = map Ok (drop (S j) ns)).
  { rewrite <- !skipn_map. rewrite Hdec. reflexivity. }
  assert (Hne : exists g gs, drop (S j) (f :: fs') = g :: gs).
  { destruct (drop (S j) (f :: fs')) eqn:E; [|eauto].
    apply (f_equal (@length _)) in E. rewrite length_drop in E.
    simpl in E, Hk. lia. }
  destruct Hne as (g & gs & Hg).
  assert (Hp1 : pcb p = Some c) by assumption.
  exists b, k1, w1.
  split; [|split; [|split; [|split; [|split; [|split]]]]].
  - rewrite <- Hc in Hd.
    apply (dispatch_ready world (invoke_user world user_cb) h k w pipe_id p
             f fs' _ _ _ _ _ Hv Hl Hp Hq Hd).
  - reflexivity.
  - apply length_take_le. lia.
  - exact Hq1.
  - apply length_drop.
  - destruct (drain_prefix (Some (hself h)) c (pctx p) (pfd p)
                (drop (S j) (f :: fs')) (drop (S j) ns) w1 Hdec2)
      as (m & b2 & sys2 & w2 & Hm & Hd2).
    exists m, b2. eexists. exists w2.
    split; [apply Hm; rewrite Hg; discriminate|].
    rewrite Hg in Hd2, Hq1. rewrite <- Hc in Hd2.
    pose proof (dispatch_ready world (invoke_user world user_cb) h k1 w1
                  pipe_id p g gs _ _ _ _ _ Hv Hl Hp Hq1 Hd2) as Hr2.
    rewrite Hg. split; [exact Hr2|].
    cbn [k_log k_with_socks ksocks]. apply lookup_insert_eq.
  - intros Hcont.
    destruct (drain_all (Some (hself h)) c (pctx p) (pfd p)
                (drop (S j) (f :: fs')) (drop (S j) ns) w1 Hdec2 Hcont)
      as (b2 & sys2 & Hd2).
    rewrite Hg in Hd2, Hq1. rewrite <- Hc in Hd2.
    pose proof (dispatch_ready world (invoke_user world user_cb) h k1 w1
                  pipe_id p g gs _ _ _ _ _ Hv Hl Hp Hq1 Hd2) as Hr2.
    exists b2. eexists. split; [exact Hr2|].
    cbn [k_log k_with_socks ksocks]. apply lookup_insert_eq.
Qed.

End EngineFacts.

(** ** The engine on the sample data *)

Lemma device_gone_every_call_witness :
  run_ops 115 16 19 sample_decode sample_encode nat sample_user_cb sample_errno
    [OpRead 0; OpWrite 0 [x05]; OpOpen "diag"; OpWait 3; OpRead 1]
    (gone_handle, sample_kernel, 0%nat)
  = Some ([-19; -19; -19; -19; -19], (gone_handle, sample_kernel, 0%nat)).
Proof.
  apply (device_gone_every_call 115 16 19 sample_decode sample_encode nat
           sample_user_cb sample_errno gone_handle sample_kernel 0%nat
           [OpRead 0; OpWrite 0 [x05]; OpOpen "diag"; OpWait 3; OpRead 1]).
  reflexivity.
Defined.

(** A handle gets marked when the kernel reports the device gone. *)
Example read_after_removal :
  fst (fst (fst
    (wimaxll_pipe_read sample_decode nat sample_user_cb sample_handle
       (mk_kernel (kgroups sample_kernel) (ksocks sample_kernel) false 5 [] [])
       0%nat 1%nat)))
  = (Err DeviceGone, gone_handle).
Proof. reflexivity. Qed.

Lemma pipe_read_stop_then_resume_witness :
  exists b k1,
    wimaxll_pipe_read sample_decode nat sample_user_cb
      sample_handle sample_kernel 0%nat 1%nat
    = (Ok b, sample_handle, k1, 2%nat, [MsgToUser [x0a]; MsgToUser [x0b]]) /\
    ksocks k1 !! 4 = Some [[x02; x0c]; [x02; x0d]] /\
    exists b2 k2,
      wimaxll_pipe_read sample_decode nat sample_user_cb
        sample_handle k1 2%nat 1%nat
      = (Ok b2, sample_handle, k2, 4%nat, [MsgToUser [x0c]; MsgToUser [x0d]]) /\
      ksocks k2 !! 4 = Some [].
Proof.
  destruct (pipe_read_stop_then_resume sample_decode nat sample_user_cb
              sample_handle sample_kernel 0%nat 1%nat
              (mk_pipe 2 4 (Some (UserCb 0)) (CtxApp 5%positive)) (UserCb 0)
              [[x02; x0a]; [x02; x0b]; [x02; x0c]; [x02; x0d]]
              [MsgToUser [x0a]; MsgToUser [x0b]; MsgToUser [x0c]; MsgToUser [x0d]]
              2%nat (-16))
    as (b & k1 & w1 & Hread & Hw1 & _ & Hrest & _ & _ & Hnext).
  - reflexivity.
  - reflexivity.
  - reflexivity.
  - reflexivity.
  - reflexivity.
  - reflexivity.
  - simpl. lia.
  - reflexivity.
  - lia.
  - subst w1. exists b, k1. split; [exact Hread|]. split; [exact Hrest|].
    apply Hnext. reflexivity.
Defined.

Lemma wait_restores_callback_witness :
  exists r h' k' w',
    wimaxll_wait_for_state_change 115 16 sample_decode nat sample_user_cb
      2 sample_handle sample_kernel 0%nat = Some (r, h', k', w') /\
    r = Ok (3, 4) /\
    wimaxll_pipe_get_cb_msg_to_user h' O
      = wimaxll_pipe_get_cb_msg_to_user sample_handle O /\
    hpipes h' = hpipes sample_handle.
Proof.
  eexists _, _, _, _.
  split; [vm_compute; reflexivity|].
  split; [reflexivity|].
  eapply (wait_restores_callback 115 16 sample_decode nat sample_user_cb
            2 sample_handle sample_kernel 0%nat).
  vm_compute; reflexivity.
Defined.

(** The wait also hands the callback back when it ends on the deadline. *)
Example wait_timeout_restores :
  let k := mk_kernel (kgroups sample_kernel) {[ 3 := [] ]} true 5
             [KArrive 3 [[x02; x07]]; KDeadline] [] in
  exists k',
    wimaxll_wait_for_state_change 115 16 sample_decode nat sample_user_cb
      5 sample_handle k 0%nat = Some (Err Timeout, sample_handle, k', 0%nat).
Proof. eexists. vm_compute. reflexivity. Qed.

(** C7 as stated does not hold: the header declares the close functions
    [void], so closing an id that was never opened hands no [BadPipeId] back
    to the caller. *)
Lemma pipe_close_reports_nothing :
  hpipes sample_handle !! 7%nat = None /\
  fst (fst (wimaxll_pipe_close sample_handle sample_kernel 7))
    <> Status (Err BadPipeId).
Proof. split; [reflexivity|]. vm_compute. discriminate. Qed.

Lemma pipe_close_is_safe_witness :
  wimaxll_pipe_close sample_handle sample_kernel 7
    = (Nothing, sample_handle, sample_kernel) /\
  wimaxll_pipe_fd
    (snd (fst (wimaxll_pipe_close sample_handle sample_kernel 1))) 1
    = Err BadPipeId /\
  hpipes (snd (fst (wimaxll_pipe_close sample_handle sample_kernel 1))) !! O
    = hpipes sample_handle !! O.
Proof.
  pose proof (pipe_close_is_safe sample_handle sample_kernel 7) as H7.
  pose proof (pipe_close_is_safe sample_handle sample_kernel 1) as H1.
  cbv zeta in H7, H1.
  destruct H7 as (_ & Hnone & _).
  destruct H1 as (_ & _ & Hother & _ & Hfd & _).
  split; [apply Hnone; reflexivity|].
  split; [apply Hfd; discriminate|apply Hother; discriminate].
Defined.

(** * Further properties of the inline functions *)

(** ** Byte swaps, byte by byte *)

Lemma testbit_byte_pair (a b n : Z) :
  0 <= b < 256 -> 0 <= n ->
  Z.testbit (a * 256 + b) n
    = if n <? 8 then Z.testbit b n else Z.testbit a (n - 8).
Proof.
  intros Hb Hn. destruct (Z.ltb_spec n 8) as [H8|H8].
  - rewrite <- (Z.mod_pow2_bits_low (a * 256 + b) 8 n) by lia.
    change (2 ^ 8) with 256.
    rewrite Z.add_comm, Z_mod_plus_full, Z.mod_small by lia. reflexivity.
  - replace n with ((n - 8) + 8) at 1 by lia.
    rewrite <- Z.div_pow2_bits by lia.
    change (2 ^ 8) with 256.
    rewrite Z.div_add_l, Z.div_small by lia. f_equal. lia.
Qed.

Lemma testbit_byte_high (b m : Z) :
  0 <= b < 256 -> 8 <= m -> Z.testbit b m = false.
Proof.
  intros Hb Hm. rewrite <- (Z.mod_small b (2 ^ 8)) by (change (2 ^ 8) with 256; lia).
  apply Z.mod_pow2_bits_high. lia.
Qed.

Lemma bswap_16_short (x : Z) : to_ushort (bswap_16 x) = bswap_16 x.
Proof.
  apply Z.bits_inj'. intros n Hn.
  rewrite testbit_to_ushort, bswap_16_bits by assumption.
  split_positions; close_bits.
Qed.

Lemma bswap_32_word (x : Z) : to_uint32 (bswap_32 x) = bswap_32 x.
Proof.
  apply Z.bits_inj'. intros n Hn.
  rewrite testbit_to_uint32, bswap_32_bits by assumption.
  split_positions; close_bits.
Qed.

Lemma wimaxll_swap_16_range (x : Z) : 0 <= wimaxll_swap_16 x < 2 ^ 16.
Proof. unfold wimaxll_swap_16, to_ushort. apply Z.mod_pos_bound. lia. Qed.

Lemma wimaxll_swap_32_range (x : Z) : 0 <= wimaxll_swap_32 x < 2 ^ 32.
Proof.
  unfold wimaxll_swap_32. rewrite <- bswap_32_word. unfold to_uint32 at 1.
  apply Z.mod_pos_bound. lia.
Qed.

Lemma swap_16_of_bytes (hi lo : Z) :
  0 <= hi < 256 -> 0 <= lo < 256 ->
  wimaxll_swap_16 (hi * 256 + lo) = lo * 256 + hi.
Proof.
  intros Hhi Hlo. apply Z.bits_inj'. intros n Hn.
  unfold wimaxll_swap_16.
  rewrite testbit_to_ushort, bswap_16_bits by assumption.
  rewrite (testbit_byte_pair lo hi n) by assumption.
  destruct (Z.ltb_spec n 8) as [H8|H8].
  - rewrite testbit_byte_pair by lia. split_positions; close_bits.
  - destruct (Z.ltb_spec n 16) as [H16|H16].
    + rewrite testbit_byte_pair by lia. split_positions; close_bits.
    + simpl. symmetry. apply testbit_byte_high; [assumption|lia].
Qed.

Lemma testbit_word_bytes (b3 b2 b1 b0 n : Z) :
  0 <= b2 < 256 -> 0 <= b1 < 256 -> 0 <= b0 < 256 -> 0 <= n ->
  Z.testbit (((b3 * 256 + b2) * 256 + b1) * 256 + b0) n
    = if n <? 8 then Z.testbit b0 n
      else if n <? 16 then Z.testbit b1 (n - 8)
      else if n <? 24 then Z.testbit b2 (n - 16)
      else Z.testbit b3 (n - 24).
Proof.
  intros H2 H1 H0 Hn.
  rewrite testbit_byte_pair by assumption.
  destruct (Z.ltb_spec n 8) as [H8|H8]; [reflexivity|].
  rewrite testbit_byte_pair by lia.
  destruct (Z.ltb_spec (n - 8) 8), (Z.ltb_spec n 16); try lia; [reflexivity|].
  rewrite testbit_byte_pair by lia.
  destruct (Z.ltb_spec (n - 8 - 8) 8), (Z.ltb_spec n 24); try lia;
    f_equal; lia.
Qed.

Lemma swap_32_of_bytes (b3 b2 b1 b0 : Z) :
  0 <= b3 < 256 -> 0 <= b2 < 256 -> 0 <= b1 < 256 -> 0 <= b0 < 256 ->
  wimaxll_swap_32 (((b3 * 256 + b2) * 256 + b1) * 256 + b0)
    = ((b0 * 256 + b1) * 256 + b2) * 256 + b3.
Proof.
  intros H3 H2 H1 H0. apply Z.bits_inj'. intros n Hn.
  unfold wimaxll_swap_32, to_uint32.
  rewrite Z.mod_small by (change (2 ^ 32) with 4294967296; lia).
  rewrite bswap_32_bits by assumption.
  rewrite (testbit_word_bytes b0 b1 b2 b3 n) by assumption.
  destruct (Z.ltb_spec n 8); [|destruct (Z.ltb_spec n 16);
    [|destruct (Z.ltb_spec n 24); [|destruct (Z.ltb_spec n 32)]]].
  - rewrite testbit_word_bytes by lia. split_positions; close_bits.
  - rewrite testbit_word_bytes by lia. split_positions; close_bits.
  - rewrite testbit_word_bytes by lia. split_positions; close_bits.
  - rewrite testbit_word_bytes by lia. split_positions; close_bits.
  - symmetry. apply testbit_byte_high; [assumption|lia].
Qed.

(** X1: [wimaxll_swap_16] exchanges the two bytes of its argument (the
    header's comment says nibbles; the code swaps bytes). *)
Theorem wimaxll_swap_16_exchanges_bytes (hi lo : Z) :
  0 <= hi < 256 -> 0 <= lo < 256 ->
  wimaxll_swap_16 (hi * 256 + lo) = lo * 256 + hi.
Proof. intros Hhi Hlo. apply swap_16_of_bytes; assumption. Qed.

Lemma wimaxll_swap_16_exchanges_bytes_witness :
  wimaxll_swap_16 (171 * 256 + 205) = 205 * 256 + 171.
Proof. apply (wimaxll_swap_16_exchanges_bytes 171 205); lia. Defined.

(** X2: [wimaxll_swap_32] reverses the order of the four bytes of a 32-bit
    value. *)
Theorem wimaxll_swap_32_reverses_bytes (b3 b2 b1 b0 : Z) :
  0 <= b3 < 256 -> 0 <= b2 < 256 -> 0 <= b1 < 256 -> 0 <= b0 < 256 ->
  wimaxll_swap_32 (((b3 * 256 + b2) * 256 + b1) * 256 + b0)
    = ((b0 * 256 + b1) * 256 + b2) * 256 + b3.
Proof. intros. apply swap_32_of_bytes; assumption. Qed.

Lemma wimaxll_swap_32_reverses_bytes_witness :
  wimaxll_swap_32 (((18 * 256 + 52) * 256 + 86) * 256 + 120)
    = ((120 * 256 + 86) * 256 + 52) * 256 + 18.
Proof. apply (wimaxll_swap_32_reverses_bytes 18 52 86 120); lia. Defined.

(** X3: whatever the width of [unsigned long], [wimaxll_swap_32] gives a
    32-bit value that depends only on the low 32 bits of its argument, and
    swapping twice gives those low 32 bits back, not the argument. *)
Theorem wimaxll_swap_32_low_word (x : Z) :
  0 <= wimaxll_swap_32 x < 2 ^ 32 /\
  wimaxll_swap_32 x = wimaxll_swap_32 (x mod 2 ^ 32) /\
  wimaxll_swap_32 (wimaxll_swap_32 x) = x mod 2 ^ 32.
Proof.
  assert (Hlow : wimaxll_swap_32 x = wimaxll_swap_32 (x mod 2 ^ 32)).
  { unfold wimaxll_swap_32, to_uint32. rewrite Z.mod_mod by lia. reflexivity. }
  split; [apply wimaxll_swap_32_range|]. split; [exact Hlow|].
  rewrite Hlow. apply wimaxll_swap_32_involutive.
  apply Z.mod_pos_bound. lia.
Qed.

(** X4: on either host the four conversions map 16-bit values to 16-bit
    values and 32-bit values to 32-bit values. *)
Theorem le_conversions_in_range (bo : byte_order) (x16 x32 : Z) :
  0 <= x16 < 2 ^ 16 ->
  0 <= x32 < 2 ^ 32 ->
  0 <= wimaxll_cpu_to_le16 bo x16 < 2 ^ 16 /\
  0 <= wimaxll_le16_to_cpu bo x16 < 2 ^ 16 /\
  0 <= wimaxll_cpu_to_le32 bo x32 < 2 ^ 32 /\
  0 <= wimaxll_le32_to_cpu bo x32 < 2 ^ 32.
Proof.
  intros H16 H32. destruct bo; simpl; repeat split;
    try (apply wimaxll_swap_16_range); try (apply wimaxll_swap_32_range);
    lia.
Qed.

Lemma le_conversions_in_range_witness :
  0 <= wimaxll_cpu_to_le16 BIG_ENDIAN 65535 < 2 ^ 16 /\
  0 <= wimaxll_le16_to_cpu BIG_ENDIAN 65535 < 2 ^ 16 /\
  0 <= wimaxll_cpu_to_le32 BIG_ENDIAN 4294967295 < 2 ^ 32 /\
  0 <= wimaxll_le32_to_cpu BIG_ENDIAN 4294967295 < 2 ^ 32.
Proof. apply (le_conversions_in_range BIG_ENDIAN 65535 4294967295); lia. Defined.

(** X5: the round trip in the other direction: a little-endian value taken
    to cpu order and back is unchanged, on either host. *)
Theorem cpu_le_roundtrip (bo : byte_order) (x16 x32 : Z) :
  0 <= x16 < 2 ^ 16 ->
  0 <= x32 < 2 ^ 32 ->
  wimaxll_cpu_to_le16 bo (wimaxll_le16_to_cpu bo x16) = x16 /\
  wimaxll_cpu_to_le32 bo (wimaxll_le32_to_cpu bo x32) = x32.
Proof.
  intros H16 H32. destruct bo; simpl; split; try reflexivity.
  - apply wimaxll_swap_16_involutive; assumption.
  - apply wimaxll_swap_32_involutive; assumption.
Qed.

Lemma cpu_le_roundtrip_witness :
  wimaxll_cpu_to_le16 BIG_ENDIAN (wimaxll_le16_to_cpu BIG_ENDIAN 4660) = 4660 /\
  wimaxll_cpu_to_le32 BIG_ENDIAN (wimaxll_le32_to_cpu BIG_ENDIAN 305419896)
    = 305419896.
Proof. apply (cpu_le_roundtrip BIG_ENDIAN 4660 305419896); lia. Defined.

(** X6: for an [unsigned long] value that does not fit 32 bits the two hosts
    differ: on a big-endian host the 32-bit round trip keeps only the low 32
    bits, on a little-endian host it keeps the value. *)
Theorem le32_roundtrip_wide (x : Z) :
  2 ^ 32 <= x ->
  wimaxll_le32_to_cpu BIG_ENDIAN (wimaxll_cpu_to_le32 BIG_ENDIAN x)
    = x mod 2 ^ 32 /\
  wimaxll_le32_to_cpu BIG_ENDIAN (wimaxll_cpu_to_le32 BIG_ENDIAN x) <> x /\
  wimaxll_le32_to_cpu LITTLE_ENDIAN (wimaxll_cpu_to_le32 LITTLE_ENDIAN x) = x.
Proof.
  intros Hx. simpl.
  assert (Hrt : wimaxll_swap_32 (wimaxll_swap_32 x) = x mod 2 ^ 32).
  { unfold wimaxll_swap_32 at 2. unfold to_uint32.
    change (bswap_32 (x mod 2 ^ 32)) with (bswap_32 (to_uint32 x)).
    replace (bswap_32 (to_uint32 x)) with (wimaxll_swap_32 (x mod 2 ^ 32)).
    - apply wimaxll_swap_32_involutive. apply Z.mod_pos_bound. lia.
    - unfold wimaxll_swap_32, to_uint32. rewrite Z.mod_mod by lia. reflexivity. }
  split; [exact Hrt|]. split; [|reflexivity].
  rewrite Hrt. pose proof (Z.mod_pos_bound x (2 ^ 32) ltac:(lia)). lia.
Qed.

Lemma le32_roundtrip_wide_witness :
  wimaxll_le32_to_cpu BIG_ENDIAN (wimaxll_cpu_to_le32 BIG_ENDIAN (2 ^ 32 + 7))
    = (2 ^ 32 + 7) mod 2 ^ 32 /\
  wimaxll_le32_to_cpu BIG_ENDIAN (wimaxll_cpu_to_le32 BIG_ENDIAN (2 ^ 32 + 7))
    <> 2 ^ 32 + 7 /\
  wimaxll_le32_to_cpu LITTLE_ENDIAN
    (wimaxll_cpu_to_le32 LITTLE_ENDIAN (2 ^ 32 + 7)) = 2 ^ 32 + 7.
Proof. apply (le32_roundtrip_wide (2 ^ 32 + 7)). lia. Defined.

(** X7: [wimaxll_swap_32] applied to a 16-bit value does not give its
    16-bit swap: the swapped bytes land in the upper half of the word. *)
Theorem wimaxll_swap_32_of_short (x : Z) :
  0 <= x < 2 ^ 16 ->
  wimaxll_swap_32 x = wimaxll_swap_16 x * 2 ^ 16.
Proof.
  intros Hx. change (2 ^ 16) with 65536 in *.
  pose proof (Z.div_mod x 256 ltac:(lia)) as Hdm.
  pose proof (Z.mod_pos_bound x 256 ltac:(lia)) as Hlo.
  assert (Hhi : 0 <= x / 256 < 256).
  { split; [apply Z.div_pos; lia|apply Z.div_lt_upper_bound; lia]. }
  replace (wimaxll_swap_32 x)
    with (wimaxll_swap_32 (((0 * 256 + 0) * 256 + x / 256) * 256 + x mod 256))
    by (f_equal; lia).
  replace (wimaxll_swap_16 x)
    with (wimaxll_swap_16 (x / 256 * 256 + x mod 256)) by (f_equal; lia).
  rewrite swap_32_of_bytes, swap_16_of_bytes by lia. lia.
Qed.

Lemma wimaxll_swap_32_of_short_witness :
  wimaxll_swap_32 4660 = wimaxll_swap_16 4660 * 2 ^ 16.
Proof. apply (wimaxll_swap_32_of_short 4660). lia. Defined.

(** ** The conversions and the bytes in memory *)

Lemma le_bytes_cons (w : nat) (a b : Z) :
  0 <= b < 256 -> le_bytes (S w) (a * 256 + b) = b :: le_bytes w a.
Proof.
  intros Hb. cbn [le_bytes].
  rewrite Z.add_comm, Z_mod_plus_full, Z.mod_small by lia.
  rewrite Z.add_comm, Z.div_add_l, Z.div_small by lia.
  rewrite Z.add_0_r. reflexivity.
Qed.

Lemma le_bytes_short (hi lo : Z) :
  0 <= hi < 256 -> 0 <= lo < 256 -> le_bytes 2 (hi * 256 + lo) = [lo; hi].
Proof.
  intros Hhi Hlo. rewrite le_bytes_cons by assumption.
  replace hi with (0 * 256 + hi) at 1 by lia.
  rewrite le_bytes_cons by assumption. reflexivity.
Qed.

Lemma le_bytes_word (b3 b2 b1 b0 : Z) :
  0 <= b3 < 256 -> 0 <= b2 < 256 -> 0 <= b1 < 256 -> 0 <= b0 < 256 ->
  le_bytes 4 (((b3 * 256 + b2) * 256 + b1) * 256 + b0) = [b0; b1; b2; b3].
Proof.
  intros H3 H2 H1 H0. rewrite !le_bytes_cons by assumption.
  replace b3 with (0 * 256 + b3) at 1 by lia.
  rewrite le_bytes_cons by assumption. reflexivity.
Qed.

Lemma short_as_bytes (x : Z) :
  0 <= x < 2 ^ 16 ->
  exists hi lo, 0 <= hi < 256 /\ 0 <= lo < 256 /\ x = hi * 256 + lo.
Proof.
  intros Hx. change (2 ^ 16) with 65536 in Hx.
  exists (x / 256), (x mod 256).
  pose proof (Z.div_mod x 256 ltac:(lia)).
  pose proof (Z.mod_pos_bound x 256 ltac:(lia)).
  split; [|split; [assumption|lia]].
  split; [apply Z.div_pos; lia|apply Z.div_lt_upper_bound; lia].
Qed.

Lemma word_as_bytes (x : Z) :
  0 <= x < 2 ^ 32 ->
  exists b3 b2 b1 b0,
    0 <= b3 < 256 /\ 0 <= b2 < 256 /\ 0 <= b1 < 256 /\ 0 <= b0 < 256 /\
    x = ((b3 * 256 + b2) * 256 + b1) * 256 + b0.
Proof.
  intros Hx. change (2 ^ 32) with 4294967296 in Hx.
  exists (x / 256 / 256 / 256), (x / 256 / 256 mod 256),
    (x / 256 mod 256), (x mod 256).
  pose proof (Z.div_mod x 256 ltac:(lia)).
  pose proof (Z.mod_pos_bound x 256 ltac:(lia)).
  pose proof (Z.div_mod (x / 256) 256 ltac:(lia)).
  pose proof (Z.mod_pos_bound (x / 256) 256 ltac:(lia)).
  pose proof (Z.div_mod (x / 256 / 256) 256 ltac:(lia)).
  pose proof (Z.mod_pos_bound (x / 256 / 256) 256 ltac:(lia)).
  assert (0 <= x / 256 / 256 / 256 < 256).
  { split; [repeat apply Z.div_pos; lia|].
    repeat apply Z.div_lt_upper_bound; lia. }
  repeat split; lia.
Qed.

(** X8: what [wimaxll_cpu_to_le16] and [wimaxll_cpu_to_le32] return is, once
    stored in a 2-byte or 4-byte object, laid out least significant byte
    first on either host: the bytes are those of the value in little-endian
    order. *)
Theorem cpu_to_le_layout (bo : byte_order) (x16 x32 : Z) :
  0 <= x16 < 2 ^ 16 ->
  0 <= x32 < 2 ^ 32 ->
  object_bytes bo 2 (wimaxll_cpu_to_le16 bo x16) = le_bytes 2 x16 /\
  object_bytes bo 4 (wimaxll_cpu_to_le32 bo x32) = le_bytes 4 x32.
Proof.
  intros H16 H32. destruct bo; [split; reflexivity|].
  destruct (short_as_bytes x16 H16) as (hi & lo & Hhi & Hlo & ->).
  destruct (word_as_bytes x32 H32) as (b3 & b2 & b1 & b0 & B3 & B2 & B1 & B0 & ->).
  unfold object_bytes, wimaxll_cpu_to_le16, wimaxll_cpu_to_le32.
  rewrite swap_16_of_bytes, swap_32_of_bytes by assumption.
  rewrite !le_bytes_short, !le_bytes_word by assumption.
  split; reflexivity.
Qed.

Lemma cpu_to_le_layout_witness :
  object_bytes BIG_ENDIAN 2 (wimaxll_cpu_to_le16 BIG_ENDIAN 4660)
    = le_bytes 2 4660 /\
  object_bytes BIG_ENDIAN 4 (wimaxll_cpu_to_le32 BIG_ENDIAN 305419896)
    = le_bytes 4 305419896.
Proof. apply (cpu_to_le_layout BIG_ENDIAN 4660 305419896); lia. Defined.

(** X9: [wimaxll_le16_to_cpu] and [wimaxll_le32_to_cpu] read a
    little-endian object: when the bytes of the object in memory are
    [lo; hi] (or [b0; b1; b2; b3]), lowest address first, the result is the
    number these bytes spell least significant first, on either host. *)
Theorem le_to_cpu_reads_layout (bo : byte_order) (v16 v32 : Z)
    (lo hi b0 b1 b2 b3 : Z) :
  0 <= v16 < 2 ^ 16 ->
  0 <= v32 < 2 ^ 32 ->
  object_bytes bo 2 v16 = [lo; hi] ->
  object_bytes bo 4 v32 = [b0; b1; b2; b3] ->
  wimaxll_le16_to_cpu bo v16 = hi * 256 + lo /\
  wimaxll_le32_to_cpu bo v32 = ((b3 * 256 + b2) * 256 + b1) * 256 + b0.
Proof.
  intros H16 H32 L16 L32.
  destruct (short_as_bytes v16 H16) as (h & l & Hh & Hl & ->).
  destruct (word_as_bytes v32 H32) as (c3 & c2 & c1 & c0 & C3 & C2 & C1 & C0 & ->).
  unfold object_bytes in L16, L32.
  rewrite le_bytes_short in L16 by assumption.
  rewrite le_bytes_word in L32 by assumption.
  destruct bo; simpl in L16, L32; inversion L16; inversion L32; subst;
    unfold wimaxll_le16_to_cpu, wimaxll_le32_to_cpu.
  - split; reflexivity.
  - rewrite swap_16_of_bytes, swap_32_of_bytes by assumption.
    split; reflexivity.
Qed.

Lemma le_to_cpu_reads_layout_witness :
  wimaxll_le16_to_cpu BIG_ENDIAN 13330 = 18 * 256 + 52 /\
  wimaxll_le32_to_cpu BIG_ENDIAN 2018915346
    = ((18 * 256 + 52) * 256 + 86) * 256 + 120.
Proof.
  apply (le_to_cpu_reads_layout BIG_ENDIAN 13330 2018915346
           52 18 120 86 52 18); try lia; reflexivity.
Defined.

(** ** Callback contexts: runs of calls, frames and re-initialization *)

Section CallbackContextMore.

Variable EINPROGRESS : Z.

Abbreviation set_result' := (wimaxll_cb_context_set_result EINPROGRESS).
Abbreviation init' := (wimaxll_gnl_cb_context_init EINPROGRESS).
Abbreviation pending := (- EINPROGRESS).

Lemma cb_context_init_run (h : heap) (a : addr) (c0 : wimaxll_gnl_cb_context)
    (w : ptr) :
  h !! a = Some c0 ->
  init' (Some a) w h =
    Some (tt, <[a := mk_cb_context w pending (msg_done c0)]> h,
          [Store a; Store a]).
Proof.
  intros Ha.
  unfold wimaxll_gnl_cb_context_init, mbind, store_wmx, store_result.
  rewrite Ha. cbv beta iota. rewrite lookup_insert_eq. cbv beta iota.
  rewrite insert_insert_eq. reflexivity.
Qed.

Lemma set_result_run (h : heap) (a : addr) (c : wimaxll_gnl_cb_context) (v : Z) :
  h !! a = Some c ->
  exists t,
    set_result' (Some a) v h
      = Some (tt, after_set_result EINPROGRESS h a c v, t) /\
    Forall (fun e => e = Load a \/ e = Store a) t.
Proof.
  intros Ha. unfold after_set_result.
  destruct (Z.eqb_spec (result c) pending) as [Hr|Hr].
  - eexists. split; [apply set_result_pending; assumption|].
    repeat (constructor; [auto|]). constructor.
  - eexists. split; [apply set_result_final with (c := c); assumption|].
    repeat (constructor; [auto|]). constructor.
Qed.

Lemma after_set_result_other (h : heap) (a b : addr)
    (c : wimaxll_gnl_cb_context) (v : Z) :
  b <> a -> after_set_result EINPROGRESS h a c v !! b = h !! b.
Proof.
  intros Hb. unfold after_set_result.
  destruct (result c =? pending); [|reflexivity].
  apply lookup_insert_ne. congruence.
Qed.

(** X10: on a context whose slot is pending, a run of calls leaves the first
    of their values that is not [-EINPROGRESS], and leaves the slot pending
    when there is none: a call that passes [-EINPROGRESS] itself counts for
    nothing and a later call still sets the result. *)
Theorem set_results_first_final (vals : list Z) :
  forall (h : heap) (a : addr) (c : wimaxll_gnl_cb_context),
    h !! a = Some c ->
    result c = pending ->
    exists t,
      set_results EINPROGRESS (Some a) vals h =
        Some (tt,
              <[a := mk_cb_context (wmx c) (first_final pending vals)
                       (msg_done c)]> h,
              t).
Proof.
  induction vals as [|v vs IH]; intros h a c Ha Hr.
  - exists []. cbn [set_results first_final]. unfold mret.
    rewrite insert_id; [reflexivity|].
    rewrite Ha. destruct c; simpl in *; subst; reflexivity.
  - cbn [set_results first_final]. unfold mbind at 1.
    rewrite (set_result_pending EINPROGRESS h a c v Ha Hr).
    set (c' := mk_cb_context (wmx c) v (msg_done c)).
    assert (Ha' : <[a := c']> h !! a = Some c') by apply lookup_insert_eq.
    destruct (Z.eqb_spec v pending) as [Hv|Hv].
    + destruct (IH (<[a := c']> h) a c' Ha' Hv) as (t & Ht).
      rewrite Ht. cbn [wmx msg_done c']. rewrite insert_insert_eq. eauto.
    + rewrite (set_results_final EINPROGRESS (<[a := c']> h) a c' vs Ha' Hv).
      eauto.
Qed.

(** X11: a call on a valid context touches that context's result slot and
    nothing else: its [wmx] and [msg_done] stay, every other context stays,
    no context appears or disappears, and the only accesses are to the
    context passed. *)
Theorem set_result_touches_only_result (h : heap) (a : addr)
    (c : wimaxll_gnl_cb_context) (v : Z) :
  h !! a = Some c ->
  exists h' t c',
    set_result' (Some a) v h = Some (tt, h', t) /\
    h' !! a = Some c' /\
    wmx c' = wmx c /\ msg_done c' = msg_done c /\
    (forall b, b <> a -> h' !! b = h !! b) /\
    dom h' = dom h /\
    Forall (fun e => e = Load a \/ e = Store a) t.
Proof.
  intros Ha. destruct (set_result_run h a c v Ha) as (t & Hrun & Ht).
  exists (after_set_result EINPROGRESS h a c v), t.
  unfold after_set_result in *.
  destruct (result c =? pending).
  - eexists. split; [exact Hrun|]. split; [apply lookup_insert_eq|].
    split; [reflexivity|]. split; [reflexivity|].
    split; [intros b Hb; apply lookup_insert_ne; congruence|].
    split; [|exact Ht].
    rewrite dom_insert_L. apply subseteq_union_1_L.
    apply singleton_subseteq_l. eapply elem_of_dom_2. exact Ha.
  - exists c. repeat split; auto.
Qed.

(** X12: [wimaxll_gnl_cb_context_init] re-arms a context: whatever it held,
    a final result included, the next call to set the result takes effect. *)
Theorem cb_context_init_rearms (h : heap) (a : addr)
    (c0 : wimaxll_gnl_cb_context) (w : ptr) (v : Z) :
  h !! a = Some c0 ->
  (init' (Some a) w ;;; set_result' (Some a) v) h =
    Some (tt, <[a := mk_cb_context w v (msg_done c0)]> h,
          [Store a; Store a; Load a; Store a]).
Proof.
  intros Ha. unfold mbind.
  rewrite (cb_context_init_run h a c0 w Ha).
  rewrite (set_result_pending EINPROGRESS _ a
             (mk_cb_context w pending (msg_done c0)) v
             (lookup_insert_eq _ _ _) eq_refl).
  cbn [wmx msg_done]. rewrite insert_insert_eq. reflexivity.
Qed.

(** X13: the initializer function writes [wmx] and [result] of the context
    passed and nothing else; it leaves [msg_done] as it finds it, so the
    context equals the one the initializer macro builds exactly when
    [msg_done] was clear before. *)
Theorem cb_context_init_vs_macro (h : heap) (a : addr)
    (c0 : wimaxll_gnl_cb_context) (w : ptr) :
  h !! a = Some c0 ->
  exists h' t,
    init' (Some a) w h = Some (tt, h', t) /\
    h' !! a = Some (mk_cb_context w pending (msg_done c0)) /\
    (forall b, b <> a -> h' !! b = h !! b) /\
    (h' !! a = Some (WIMAXLL_GNL_CB_CONTEXT_INIT EINPROGRESS w)
     <-> msg_done c0 = false).
Proof.
  intros Ha. eexists _, _. split; [apply cb_context_init_run; exact Ha|].
  split; [apply lookup_insert_eq|].
  split; [intros b Hb; apply lookup_insert_ne; congruence|].
  rewrite lookup_insert_eq. unfold WIMAXLL_GNL_CB_CONTEXT_INIT.
  split; intros H.
  - inversion H. reflexivity.
  - rewrite H. reflexivity.
Qed.

(** X14: calls on two different contexts do not interfere: in either order
    they leave the same store. *)
Theorem set_result_contexts_independent (h : heap) (a b : addr)
    (ca cb : wimaxll_gnl_cb_context) (v u : Z) :
  a <> b ->
  h !! a = Some ca ->
  h !! b = Some cb ->
  exists h' t1 t2,
    (set_result' (Some a) v ;;; set_result' (Some b) u) h = Some (tt, h', t1) /\
    (set_result' (Some b) u ;;; set_result' (Some a) v) h = Some (tt, h', t2) /\
    h' = after_set_result EINPROGRESS (after_set_result EINPROGRESS h a ca v) b cb u.
Proof.
  intros Hab Ha Hb.
  destruct (set_result_run h a ca v Ha) as (ta & Hra & _).
  destruct (set_result_run h b cb u Hb) as (tb & Hrb & _).
  assert (Hb' : after_set_result EINPROGRESS h a ca v !! b = Some cb)
    by (rewrite after_set_result_other by congruence; exact Hb).
  assert (Ha' : after_set_result EINPROGRESS h b cb u !! a = Some ca)
    by (rewrite after_set_result_other by congruence; exact Ha).
  destruct (set_result_run _ b cb u Hb') as (tb' & Hrb' & _).
  destruct (set_result_run _ a ca v Ha') as (ta' & Hra' & _).
  exists (after_set_result EINPROGRESS
            (after_set_result EINPROGRESS h a ca v) b cb u),
    (ta ++ tb'), (tb ++ ta').
  split; [unfold mbind; rewrite Hra, Hrb'; reflexivity|].
  split; [|reflexivity].
  unfold mbind. rewrite Hrb, Hra'. f_equal. f_equal. f_equal.
  unfold after_set_result.
  destruct (result ca =? pending), (result cb =? pending); try reflexivity.
  apply insert_insert_ne. congruence.
Qed.

End CallbackContextMore.

Lemma set_results_first_final_witness :
  exists t,
    set_results 115 (Some 5%positive) [-115; 7; 8] sample_heap =
      Some (tt,
            <[5%positive := mk_cb_context (Some 9%positive) 7 true]> sample_heap,
            t).
Proof.
  apply (set_results_first_final 115 [-115; 7; 8] sample_heap 5%positive
           (mk_cb_context (Some 9%positive) (-115) true));
    reflexivity.
Defined.

Lemma set_result_touches_only_result_witness :
  exists h' t c',
    wimaxll_cb_context_set_result 115 (Some 5%positive) 7 sample_heap2
      = Some (tt, h', t) /\
    h' !! 5%positive = Some c' /\
    wmx c' = Some 9%positive /\ msg_done c' = true /\
    h' !! 6%positive = sample_heap2 !! 6%positive.
Proof.
  destruct (set_result_touches_only_result 115 sample_heap2 5%positive
              (mk_cb_context (Some 9%positive) (-115) true) 7)
    as (h' & t & c' & Hrun & Hc' & Hw & Hm & Hother & _).
  - reflexivity.
  - exists h', t, c'. repeat split; try assumption.
    apply Hother. discriminate.
Defined.

Lemma cb_context_init_rearms_witness :
  (wimaxll_gnl_cb_context_init 115 (Some 6%positive) (Some 3%positive) ;;;
   wimaxll_cb_context_set_result 115 (Some 6%positive) 7) sample_heap2 =
    Some (tt,
          <[6%positive := mk_cb_context (Some 3%positive) 7 false]> sample_heap2,
          [Store 6%positive; Store 6%positive; Load 6%positive; Store 6%positive]).
Proof.
  apply (cb_context_init_rearms 115 sample_heap2 6%positive
           (mk_cb_context (Some 9%positive) 0 false) (Some 3%positive) 7).
  reflexivity.
Defined.

Lemma cb_context_init_vs_macro_witness :
  exists h' t,
    wimaxll_gnl_cb_context_init 115 (Some 5%positive) (Some 3%positive)
      sample_heap = Some (tt, h', t) /\
    h' !! 5%positive = Some (mk_cb_context (Some 3%positive) (-115) true) /\
    h' !! 5%positive
      <> Some (WIMAXLL_GNL_CB_CONTEXT_INIT 115 (Some 3%positive)).
Proof.
  destruct (cb_context_init_vs_macro 115 sample_heap 5%positive
              (mk_cb_context (Some 9%positive) (-115) true) (Some 3%positive))
    as (h' & t & Hrun & Hc & _ & Hiff).
  - reflexivity.
  - exists h', t. split; [exact Hrun|]. split; [exact Hc|].
    intros H. apply Hiff in H. discriminate H.
Defined.

Lemma set_result_contexts_independent_witness :
  exists h' t1 t2,
    (wimaxll_cb_context_set_result 115 (Some 5%positive) 7 ;;;
     wimaxll_cb_context_set_result 115 (Some 6%positive) 8) sample_heap2
      = Some (tt, h', t1) /\
    (wimaxll_cb_context_set_result 115 (Some 6%positive) 8 ;;;
     wimaxll_cb_context_set_result 115 (Some 5%positive) 7) sample_heap2
      = Some (tt, h', t2) /\
    result <$> h' !! 5%positive = Some 7 /\
    result <$> h' !! 6%positive = Some 0.
Proof.
  destruct (set_result_contexts_independent 115 sample_heap2
              5%positive 6%positive
              (mk_cb_context (Some 9%positive) (-115) true)
              (mk_cb_context (Some 9%positive) 0 false) 7 8)
    as (h' & t1 & t2 & H1 & H2 & Hh').
  - discriminate.
  - reflexivity.
  - reflexivity.
  - exists h', t1, t2. split; [exact H1|]. split; [exact H2|].
    subst h'. split; reflexivity.
Defined.
